(** * swgohhelp client: ally-code parsing, authenticated calls and the
      cached, enriched batch fetch of player profiles

    A shallow embedding of [swgohhelp/client.go].  Go values returned as
    [(value, err)] are pairs whose second component is [option error]
    ([None] is Go's [nil] error); a [nil] slice is the empty list.  A run
    that dereferences a nil pointer is the outcome [Panic]. *)

From Stdlib Require Import ZArith Ascii String.
From stdpp Require Import gmap strings list fin_maps pretty.

Open Scope string_scope.
Open Scope list_scope.
Open Scope Z_scope.

(** ** strconv: Atoi and Itoa *)

Module strconv.

(** The sentinel errors of package strconv. *)
Inductive sentinel := ErrSyntax | ErrRange.

(** [strconv.NumError]: the function that failed, the string it was given
    and the reason. *)
Record NumError := mkNumError { Func : string; Num : string; Err : sentinel }.

(** [strconv.IntSize] of the platform the bot is built for (the image is a
    64-bit Debian). *)
Definition IntSize : Z := 64.
Definition MaxInt : Z := 2 ^ (IntSize - 1) - 1.
Definition MinInt : Z := - 2 ^ (IntSize - 1).

(** [ch -= '0'; if ch > 9 { syntax error }] on one byte. *)
Definition digit_of (ch : ascii) : option Z :=
  let n := Z.of_nat (nat_of_ascii ch) in
  if (48 <=? n) && (n <=? 57) then Some (n - 48) else None.

(** The accumulation loop [n = n*10 + int(ch)]; [None] is the syntax error
    raised at the first byte that is not a digit. *)
Fixpoint digits (n : Z) (s : string) : option Z :=
  match s with
  | EmptyString => Some n
  | String ch s' =>
      match digit_of ch with
      | Some d => digits (n * 10 + d) s'
      | None => None
      end
  end.

Definition syntaxError (s : string) : Z * option NumError :=
  (0, Some (mkNumError "Atoi" s ErrSyntax)).

Definition rangeError (v : Z) (s : string) : Z * option NumError :=
  (v, Some (mkNumError "Atoi" s ErrRange)).

(** [strconv.Atoi]: an optional sign, then one or more decimal digits; a
    value outside of [int] is a range error that carries the nearest
    bound.  The error always names the string Atoi was given. *)
Definition Atoi (s : string) : Z * option NumError :=
  match s with
  | EmptyString => syntaxError s
  | String ch rest =>
      let neg := if Ascii.eqb ch "-" then true else false in
      let signed := Ascii.eqb ch "-" || Ascii.eqb ch "+" in
      let body := if signed then rest else s in
      match body with
      | EmptyString => syntaxError s
      | _ =>
          match digits 0 body with
          | None => syntaxError s
          | Some n =>
              if neg then
                if - n <? MinInt then rangeError MinInt s else (- n, None)
              else
                if MaxInt <? n then rangeError MaxInt s else (n, None)
          end
      end
  end.

(** [strconv.Itoa]: the decimal form of an [int]. *)
Definition Itoa (n : Z) : string := pretty n.

End strconv.

(** ** The key normalizer *)

(** A byte matched by the class [[0-9]]. *)
Definition is_digit (ch : ascii) : bool :=
  let n := nat_of_ascii ch in (48 <=? n)%nat && (n <=? 57)%nat.

(** [allyCodeCleanup.ReplaceAllString(a, "")] with
    [allyCodeCleanup = regexp.MustCompile("[^0-9]")]: every character that is
    not an ASCII digit is removed.  A Go string is a byte sequence; the
    bytes of a multi-byte character are all above 127, so removing
    characters and removing bytes leave the same result. *)
Fixpoint allyCodeCleanup (a : string) : string :=
  match a with
  | EmptyString => EmptyString
  | String ch a' =>
      if is_digit ch then String ch (allyCodeCleanup a') else allyCodeCleanup a'
  end.

(** [parseAllyCodes]: the loop appends to the named result
    [allyCodeNumbers]; the first failure returns [nil, err]. *)
Fixpoint parseAllyCodes_loop (allyCodeNumbers : list Z) (allyCodes : list string)
  : list Z * option strconv.NumError :=
  match allyCodes with
  | [] => (allyCodeNumbers, None)
  | a :: rest =>
      match strconv.Atoi (allyCodeCleanup a) with
      | (_, Some err) => ([], Some err)
      | (n, None) => parseAllyCodes_loop (allyCodeNumbers ++ [n]) rest
      end
  end.

Definition parseAllyCodes (allyCodes : list string) : list Z * option strconv.NumError :=
  parseAllyCodes_loop [] allyCodes.

(** *** What the specification says of the normalizer *)

(** The decimal digits of a string, in order, as numbers. *)
Fixpoint digits_of (s : string) : list Z :=
  match s with
  | EmptyString => []
  | String ch s' =>
      if is_digit ch then (Z.of_nat (nat_of_ascii ch) - 48) :: digits_of s'
      else digits_of s'
  end.

(** The integer written by a sequence of decimal digits: the digit followed
    by [k] others counts [10 ^ k] times. *)
Fixpoint concatenated (ds : list Z) : Z :=
  match ds with
  | [] => 0
  | d :: ds' => d * 10 ^ Z.of_nat (length ds') + concatenated ds'
  end.

Definition has_digit (s : string) : bool :=
  match digits_of s with [] => false | _ => true end.


(** An identifier normalizes when it has a digit and its digits write an
    integer that fits [int]. *)
Definition normalizes (a : string) : Prop :=
  has_digit a = true /\ concatenated (digits_of a) <= strconv.MaxInt.

(** ** Errors *)

Inductive error :=
  | ParseAllyCodesErr (cause : strconv.NumError)
    (** [fmt.Errorf("swgohhelp: error parsing ally codes: %v", err)] *)
  | StatusErr (url : string) (code : Z) (status : string)
    (** [fmt.Errorf("swgohhelp: unexpected status code calling %s: %d %s", ...)] *)
  | LibErr (msg : string).
    (** an error of net/http, net/url, io or encoding/json *)

(** ** Data model *)

(** The record types are declared in a file of the package that is not
    part of the sources at hand; they carry the fields [client.go] reads and
    writes, and those the specification lists. *)

Record Unit := mkUnit { DefID : string; UnitLevel : Z; Stats : list (string * Z) }.

Record PlayerTitle := mkPlayerTitle { Selected : string; Unlocked : list string }.

Record Player := mkPlayer {
  PlayerName : string;
  AllyCode : Z;
  Level : Z;
  GuildName : string;
  Titles : PlayerTitle;
  Roster : list Unit;
  UpdatedAt : Z
}.

Record DataPlayerTitle := mkDataPlayerTitle { ID : string; Name : string }.

Record AuthResponse := mkAuthResponse { AccessToken : string }.

(** Go's zero values. *)
Definition zeroUnit : Unit := mkUnit "" 0 [].
Definition zeroPlayer : Player := mkPlayer "" 0 0 "" (mkPlayerTitle "" []) [] 0.
Definition zeroDataPlayerTitle : DataPlayerTitle := mkDataPlayerTitle "" "".

Definition setTitles (p : Player) (t : PlayerTitle) : Player :=
  mkPlayer (PlayerName p) (AllyCode p) (Level p) (GuildName p) t (Roster p) (UpdatedAt p).

Definition setRoster (p : Player) (r : list Unit) : Player :=
  mkPlayer (PlayerName p) (AllyCode p) (Level p) (GuildName p) (Titles p) r (UpdatedAt p).

(** ** encoding/json *)

Module json.

(** A JSON object read by the decoder of a struct type [A]: decoding it
    onto a value sets the fields the object carries and keeps the others,
    so it acts as a function on the value decoded onto. *)
Definition object (A : Type) : Type := A -> A.

(** An object that carries every field. *)
Definition full {A : Type} (a : A) : object A := fun _ => a.

(** Decoding a JSON array onto a slice: the slice takes the length of the
    array, and element [i] is decoded onto the value found at index [i]
    of the slice decoded onto (the zero value past its end, the capacity
    of a slice being taken equal to its length). *)
Fixpoint decode_array {A : Type} (zero : A) (old : list A) (arr : list (object A)) : list A :=
  match arr with
  | [] => []
  | o :: arr' =>
      match old with
      | [] => o zero :: decode_array zero [] arr'
      | x :: old' => o x :: decode_array zero old' arr'
      end
  end.

(** The elements are decoded in place while they fit: a second slice
    header over the same backing array, of the length the slice had
    before, reads the decoded elements where the array reached and its
    former elements beyond. *)
Fixpoint overwritten {A : Type} (old : list A) (arr : list (object A)) : list A :=
  match old, arr with
  | x :: old', o :: arr' => o x :: overwritten old' arr'
  | _, _ => old
  end.

(** [json.Unmarshal(b, &s)] where [s] is a copy of a slice header that
    another variable still holds: the first component is [s] afterwards,
    the second is what the other header reads afterwards. *)
Definition Unmarshal_slice {A : Type} (zero : A) (s : list A) (arr : list (object A))
  : list A * list A :=
  (decode_array zero s arr, overwritten s arr).

End json.

(** ** net/http *)

(** The body of a request, before [json.Marshal] or as the form string. *)
Record PlayersQuery := mkPlayersQuery {
  allycodes : list Z;
  language : string;
  enums : bool;
  project : gmap string Z
}.

Inductive Payload :=
  | Form (s : string)
  | QueryPlayers (q : PlayersQuery)
  | QueryTitles
  | RosterPayload (r : list Unit).

Record Request := mkRequest {
  Method : string;
  URL : string;
  Header : gmap string string;
  Payload_of : Payload
}.

(** What the bytes of a response body are to the decoder that reads them. *)
Inductive Document :=
  | JAuth (a : json.object AuthResponse)
  | JPlayers (ps : list (json.object Player))
  | JTitles (t : gmap string DataPlayerTitle)
  | JRoster (us : list (json.object Unit))
  | Malformed.

Inductive Body :=
  | Unreadable (msg : string)   (** reading the stream fails *)
  | Readable (d : Document).

Record Response := mkResponse { StatusCode : Z; Status : string; Body_of : Body }.

(** A request is issued either by [Client.call] or by [c.hc.Post]. *)
Inductive Event :=
  | Call (r : Request)
  | Post (r : Request).

(** An operand of a format: a value of type [interface{}]. *)
Inductive Operand :=
  | OString (s : string)
  | OInt (n : Z).

(** What the client does not decide: what [fmt.Sprintf] makes of a format
    that is computed, such as the URL of a call, and of its operands; which
    URLs [url.Parse] accepts; what the HTTP client [c.hc] answers to a
    request given the requests issued before it; and the time read after
    those requests. *)
Record Env := mkEnv {
  Sprintf : string -> list Operand -> string;
  url_Parse : string -> option error;
  Do : list Event -> Request -> Response + error;
  Now : list Event -> Z
}.

Module http.

Definition is_upper (ch : ascii) : bool :=
  let n := nat_of_ascii ch in (65 <=? n)%nat && (n <=? 90)%nat.
Definition is_lower (ch : ascii) : bool :=
  let n := nat_of_ascii ch in (97 <=? n)%nat && (n <=? 122)%nat.
Definition to_upper (ch : ascii) : ascii :=
  if is_lower ch then ascii_of_nat (nat_of_ascii ch - 32) else ch.
Definition to_lower (ch : ascii) : ascii :=
  if is_upper ch then ascii_of_nat (nat_of_ascii ch + 32) else ch.

Fixpoint in_string (ch : ascii) (s : string) : bool :=
  match s with
  | EmptyString => false
  | String ch' s' => Ascii.eqb ch ch' || in_string ch s'
  end.

(** A character allowed in a token (method and header names). *)
Definition isTokenRune (ch : ascii) : bool :=
  is_upper ch || is_lower ch || is_digit ch || in_string ch "!#$%&'*+-.^_`|~".

Fixpoint all_token (s : string) : bool :=
  match s with
  | EmptyString => true
  | String ch s' => isTokenRune ch && all_token s'
  end.

Definition validMethod (method : string) : bool :=
  match method with
  | EmptyString => false
  | _ => all_token method
  end.

(** [CanonicalHeaderKey]: the first letter and every letter after a
    hyphen in upper case, the others in lower case; a key that is not a
    token is left as it is. *)
Fixpoint canonical (upper : bool) (s : string) : string :=
  match s with
  | EmptyString => EmptyString
  | String ch s' =>
      String (if upper then to_upper ch else to_lower ch)
             (canonical (Ascii.eqb ch "-") s')
  end.

Definition CanonicalHeaderKey (key : string) : string :=
  if all_token key then canonical true key else key.

(** [req.Header.Set(key, value)]. *)
Definition Header_Set (req : Request) (key value : string) : Request :=
  mkRequest (Method req) (URL req)
            (<[CanonicalHeaderKey key := value]> (Header req)) (Payload_of req).

(** [http.NewRequest]: [(nil, err)] when the method is not a token or the
    URL does not parse, a request without headers otherwise. *)
Definition NewRequest (env : Env) (method url : string) (body : Payload)
  : option Request * option error :=
  let method := if String.eqb method "" then "GET" else method in
  if validMethod method then
    match url_Parse env url with
    | Some err => (None, Some err)
    | None => (Some (mkRequest method url ∅ body), None)
    end
  else (None, Some (LibErr "net/http: invalid method")).

End http.

(** ** The cache store *)

Module cache.

(** Modelled from the spec: package [cache] is not part of the sources at
    hand.  A store maps a key to a payload and an expiration timestamp; an
    entry is absent once the current time exceeds its expiration; [Put]
    replaces the value and sets the expiration to [now + TTL], the TTL being
    fixed when the store is made; [Get] after [Put] without expiry in
    between returns a value equal to the one stored.  The store is backed
    by one file, from which it is loaded when it is made; how it is written
    back is not modelled. *)
Record Cache (V : Type) := mkCache {
  expiration : Z;
  entries : gmap string (V * Z)
}.
Arguments mkCache {V} _ _.
Arguments expiration {V} _.
Arguments entries {V} _.

(** Modelled from the spec: [NewCache(file, expiration)] loads the entries
    the file holds, which thereby survive a restart; a file that is absent
    or corrupt is not fatal: the store starts empty.  [stored] is what the
    file yields: its entries, or [None] when it cannot be loaded. *)
Definition NewCache {V : Type} (stored : option (gmap string (V * Z))) (ttl : Z) : Cache V :=
  mkCache ttl (default ∅ stored).

(** Modelled from the spec: [Get(key, &value)] reports whether an unexpired
    entry exists and decodes it into [value]. *)
Definition Get {V : Type} (now : Z) (c : Cache V) (key : string) : option V :=
  match entries c !! key with
  | Some (v, expires) => if expires <? now then None else Some v
  | None => None
  end.

(** Modelled from the spec: [Put(key, &value)]. *)
Definition Put {V : Type} (now : Z) (c : Cache V) (key : string) (value : V) : Cache V :=
  mkCache (expiration c) (<[key := (value, now + expiration c)]> (entries c)).

End cache.

(** ** The client *)

(** [Client]; its HTTP client [hc] is the [Do] of the environment. *)
Record Client := mkClient {
  endpoint : string;
  token : string;
  debug : bool;
  gameData : cache.Cache (gmap string DataPlayerTitle);
  players : cache.Cache Player
}.

(** The value the package variable [DefaultEndpoint] is initialized to. *)
Definition DefaultEndpoint : string := "https://api.swgoh.help".

(** [New]: the endpoint is the value the variable [DefaultEndpoint] holds
    when [New] is called ([defaultEndpoint]); no token; the two caches are
    loaded from their files in the cache directory, [gameDataFile] and
    [playersFile] being what these files yield.  The expirations are
    constants of a file of the package that is not at hand; they are
    arguments here. *)
Definition New (defaultEndpoint : string)
  (gameDataFile : option (gmap string (gmap string DataPlayerTitle * Z)))
  (playersFile : option (gmap string (Player * Z)))
  (GameDataCacheExpiration PlayerCacheExpiration : Z) : Client :=
  mkClient defaultEndpoint "" false
           (cache.NewCache gameDataFile GameDataCacheExpiration)
           (cache.NewCache playersFile PlayerCacheExpiration).

(** [SetDebug]. *)
Definition SetDebug (c : Client) (d : bool) : Client :=
  mkClient (endpoint c) (token c) d (gameData c) (players c).

Definition setToken (c : Client) (t : string) : Client :=
  mkClient (endpoint c) t (debug c) (gameData c) (players c).

Definition setGameData (c : Client) (g : cache.Cache (gmap string DataPlayerTitle)) : Client :=
  mkClient (endpoint c) (token c) (debug c) g (players c).

Definition setPlayers (c : Client) (ps : cache.Cache Player) : Client :=
  mkClient (endpoint c) (token c) (debug c) (gameData c) ps.

(** The state a method runs in: the client and the requests issued so far. *)
Record State := mkState { client : Client; sent : list Event }.

(** A method either panics or returns its results and the state it leaves. *)
Inductive Outcome (A : Type) :=
  | Panic
  | Done (results : A) (st : State).
Arguments Panic {A}.
Arguments Done {A} _ _.

(** Lines 63-66 of [call]: the content type, and the bearer token when the
    client holds one. *)
Definition setHeaders (c : Client) (contentType : string) (req : Request) : Request :=
  let req := http.Header_Set req "Content-type" contentType in
  if String.eqb (token c) "" then req
  else http.Header_Set req "Authorization" ("Bearer " ++ token c)%string.

(** Lines 76-90 of [call]: the error of the transport, or a status code out
    of 200-299, is an error; the response is returned otherwise. *)
Definition checkStatus (url : string) (answer : Response + error)
  : option Response * option error :=
  match answer with
  | inr err => (None, Some err)
  | inl resp =>
      if (StatusCode resp <? 200) || (299 <? StatusCode resp) then
        (None, Some (StatusErr url (StatusCode resp) (Status resp)))
      else (Some resp, None)
  end.

(** [Client.call].  The URL is [c.endpoint + urlPath] taken as a format of
    the operands [args].  The headers are set on the request before the
    error of [http.NewRequest] is looked at: on a nil request this is a nil
    dereference.  The debug dumps write log files only. *)
Definition call (env : Env) (method urlPath contentType : string) (body : Payload)
  (args : list Operand) (st : State) : Outcome (option Response * option error) :=
  let c := client st in
  let url := Sprintf env (endpoint c ++ urlPath)%string args in
  let '(req, err) := http.NewRequest env method url body in
  match req with
  | None => Panic
  | Some req =>
      let req := setHeaders c contentType req in
      match err with
      | Some err => Done (None, Some err) st
      | None =>
          Done (checkStatus url (Do env (sent st) req))
               (mkState c (sent st ++ [Call req]))
      end
  end.

(** [json.NewDecoder(resp.Body).Decode(&authResponse)] on a zero value. *)
Definition decodeAuth (b : Body) : AuthResponse + error :=
  match b with
  | Unreadable msg => inr (LibErr msg)
  | Readable (JAuth a) => inl (a (mkAuthResponse ""))
  | Readable _ => inr (LibErr "json: cannot unmarshal into AuthResponse")
  end.

(** Line 95: the format is a literal with two [%s] verbs, and its operands
    are strings, which are inserted as they are. *)
Definition signinBody (username password : string) : string :=
  ("username=" ++ username ++ "&password=" ++ password
   ++ "&grant_type=password&client_id=goapiclient&client_secret=123456")%string.

(** [Client.SignIn]. *)
Definition SignIn (env : Env) (username password : string) (st : State)
  : Outcome (string * option error) :=
  let body := signinBody username password in
  match call env "POST" "/auth/signin" "application/x-www-form-urlencoded" (Form body) [] st with
  | Panic => Panic
  | Done (_, Some err) st1 => Done ("", Some err) st1
  | Done (None, None) _ => Panic
  | Done (Some resp, None) st1 =>
      match decodeAuth (Body_of resp) with
      | inr err => Done ("", Some err) st1
      | inl authResponse =>
          Done (AccessToken authResponse, None)
               (mkState (setToken (client st1) (AccessToken authResponse)) (sent st1))
      end
  end.

(** ** The title catalog *)

Definition titlesKey : string := "playerTitleList".

Definition decodeTitles (b : Body) : gmap string DataPlayerTitle + error :=
  match b with
  | Unreadable msg => inr (LibErr msg)
  | Readable (JTitles t) => inl t
  | Readable _ => inr (LibErr "json: cannot unmarshal into the title catalog")
  end.

(** Modelled from the spec: [DataPlayerTitles] is defined in a file of the
    package that is not part of the sources at hand.  The catalog is
    fetched, or reused from the cache, as a single unit: one wholesale
    remote call, cached under one fixed key of the game-data cache. *)
Definition DataPlayerTitles (env : Env) (st : State)
  : Outcome (gmap string DataPlayerTitle * option error) :=
  match cache.Get (Now env (sent st)) (gameData (client st)) titlesKey with
  | Some titles => Done (titles, None) st
  | None =>
      match call env "POST" "/swgoh/data" "application/json" QueryTitles [] st with
      | Panic => Panic
      | Done (_, Some err) st1 => Done (∅, Some err) st1
      | Done (None, None) _ => Panic
      | Done (Some resp, None) st1 =>
          match decodeTitles (Body_of resp) with
          | inr err => Done (∅, Some err) st1
          | inl titles =>
              let g := cache.Put (Now env (sent st1)) (gameData (client st1)) titlesKey titles in
              Done (titles, None) (mkState (setGameData (client st1) g) (sent st1))
          end
      end
  end.

(** ** Players *)

(** Lines 116-124: the cache is probed for every ally code in order; hits
    are appended to [players], misses to [missingFromCache]. *)
Fixpoint probe (now : Z) (store : cache.Cache Player)
  (players : list Player) (missingFromCache : list Z) (allyCodeNumbers : list Z)
  : list Player * list Z :=
  match allyCodeNumbers with
  | [] => (players, missingFromCache)
  | ally :: rest =>
      match cache.Get now store (strconv.Itoa ally) with
      | Some player => probe now store (players ++ [player]) missingFromCache rest
      | None => probe now store players (missingFromCache ++ [ally]) rest
      end
  end.

(** Lines 128-145: the payload of the batch request. *)
Definition playersProjection : gmap string Z :=
  list_to_map
    [("id", 1); ("allyCode", 1); ("name", 1); ("level", 1); ("stats", 1);
     ("arena", 1); ("roster", 1); ("guildName", 1); ("guildRefId", 1);
     ("titles", 1); ("updated", 1)].

Definition playersPayload (missingFromCache : list Z) : Payload :=
  QueryPlayers (mkPlayersQuery missingFromCache "eng_us" false playersProjection).

(** Line 154: [json.NewDecoder(resp.Body).Decode(&players)], onto the slice
    that holds the cache hits. *)
Definition decodePlayers (b : Body) (players : list Player) : list Player + error :=
  match b with
  | Unreadable msg => inr (LibErr msg)
  | Readable (JPlayers ps) => inl (json.decode_array zeroPlayer players ps)
  | Readable _ => inr (LibErr "json: cannot unmarshal into []Player")
  end.

(** [titles[key].Name]: a key the map does not hold yields the zero value. *)
Definition titleName (titles : gmap string DataPlayerTitle) (key : string) : string :=
  Name (default zeroDataPlayerTitle (titles !! key)).

(** Lines 166-169: [for j := range unlocked { unlocked[j] = titles[unlocked[j]].Name }]. *)
Definition rewriteUnlocked (titles : gmap string DataPlayerTitle) (unlocked : list string)
  : list string :=
  foldl (fun u j =>
           match u !! j with
           | Some titleKey => <[j := titleName titles titleKey]> u
           | None => u
           end)
        unlocked (seq 0 (length unlocked)).

(** Lines 164-170: the records are rewritten in place, by index. *)
Definition enrichTitles (titles : gmap string DataPlayerTitle) (players : list Player)
  : list Player :=
  foldl (fun ps i =>
           match ps !! i with
           | Some p =>
               let selected := titleName titles (Selected (Titles p)) in
               let unlocked := rewriteUnlocked titles (Unlocked (Titles p)) in
               <[i := setTitles p (mkPlayerTitle selected unlocked)]> ps
           | None => ps
           end)
        players (seq 0 (length players)).

(** What the specification says of a title: the display name the catalog
    holds for the key, the empty name for a key it does not hold. *)
Definition display (titles : gmap string DataPlayerTitle) (key : string) : string :=
  match titles !! key with
  | Some t => Name t
  | None => ""
  end.

Definition statURL : string :=
  "https://crinolo-swgoh.glitch.me/statCalc/api/characters/?flags=withModCalc,gameStyle".

(** [c.hc.Post(url, contentType, body)]: the request is built, given its
    content type and sent; a URL that does not parse is an error. *)
Definition hc_Post (env : Env) (h : list Event) (url contentType : string) (body : Payload)
  : (Response + error) * list Event :=
  match http.NewRequest env "POST" url body with
  | (_, Some err) => (inr err, h)
  | (None, None) => (inr (LibErr "net/http: nil request"), h)
  | (Some req, None) =>
      let req := http.Header_Set req "Content-Type" contentType in
      (Do env h req, h ++ [Post req])
  end.

(** Lines 186-196: the body is read, then decoded onto the roster of the
    copy. *)
Definition decodeRoster (b : Body) : list (json.object Unit) + error :=
  match b with
  | Unreadable msg => inr (LibErr msg)
  | Readable (JRoster us) => inl us
  | Readable _ => inr (LibErr "json: cannot unmarshal into Roster")
  end.

(** Lines 173-197.  [player := players[i]] copies the record: the copy and
    [players[i]] hold two headers of one roster.  [json.Unmarshal(b,
    &player.Roster)] sets the header of the copy, which the iteration then
    drops; [players[i]] keeps its header and reads what was decoded in
    place. *)
Fixpoint statLoop (env : Env) (indices : list nat) (players : list Player) (h : list Event)
  : list Player * option error * list Event :=
  match indices with
  | [] => (players, None, h)
  | i :: rest =>
      match players !! i with
      | None => (players, None, h)
      | Some player =>
          let b := RosterPayload (Roster player) in
          match hc_Post env h statURL "application/json" b with
          | (inr err, h1) => (players, Some err, h1)
          | (inl resp, h1) =>
              match decodeRoster (Body_of resp) with
              | inr err => (players, Some err, h1)
              | inl us =>
                  let '(_, shared) := json.Unmarshal_slice zeroUnit (Roster player) us in
                  statLoop env rest (<[i := setRoster player shared]> players) h1
              end
          end
      end
  end.

(** Lines 200-204: every record is put under its ally code in decimal. *)
Definition savePlayers (now : Z) (store : cache.Cache Player) (players : list Player)
  : cache.Cache Player :=
  foldl (fun s player => cache.Put now s (strconv.Itoa (AllyCode player)) player)
        store players.

(** [Client.Players].  The variable [players] is written four times: by the
    probe of the cache ([players0]), by the decoder ([players1]), by the
    title loop ([players2]) and through the roster copies of the stat loop
    ([players3]). *)
Definition Players (env : Env) (allyCodes : list string) (st : State)
  : Outcome (list Player * option error) :=
  match parseAllyCodes allyCodes with
  | (_, Some err) => Done ([], Some (ParseAllyCodesErr err)) st
  | (allyCodeNumbers, None) =>
      let '(players0, missingFromCache) :=
        probe (Now env (sent st)) (players (client st)) [] [] allyCodeNumbers in
      match missingFromCache with
      | [] => Done (players0, None) st
      | _ :: _ =>
          match call env "POST" "/swgoh/player" "application/json"
                     (playersPayload missingFromCache) [] st with
          | Panic => Panic
          | Done (_, Some err) st1 => Done ([], Some err) st1
          | Done (None, None) _ => Panic
          | Done (Some resp, None) st1 =>
              match decodePlayers (Body_of resp) players0 with
              | inr err => Done ([], Some err) st1
              | inl players1 =>
                  match DataPlayerTitles env st1 with
                  | Panic => Panic
                  | Done (_, Some err) st2 => Done ([], Some err) st2
                  | Done (titles, None) st2 =>
                      let players2 := enrichTitles titles players1 in
                      match statLoop env (seq 0 (length players2)) players2 (sent st2) with
                      | (_, Some err, h3) => Done ([], Some err) (mkState (client st2) h3)
                      | (players3, None, h3) =>
                          let store := savePlayers (Now env h3) (players (client st2)) players3 in
                          Done (players3, None) (mkState (setPlayers (client st2) store) h3)
                      end
                  end
              end
          end
      end
  end.

(** ** What a run issued *)

(** The queries of the profile-batch requests among some events. *)
Definition profileRequests (events : list Event) : list PlayersQuery :=
  omap (fun e =>
          match e with
          | Call r => match Payload_of r with QueryPlayers q => Some q | _ => None end
          | Post _ => None
          end)
       events.

(** The answer to a stat-overlay request is a failure: an error of the
    transport, a body that cannot be read, or one that is no roster. *)
Definition overlayFails (answer : Response + error) : bool :=
  match answer with
  | inr _ => true
  | inl resp => match decodeRoster (Body_of resp) with inr _ => true | inl _ => false end
  end.

(** The answer to the catalog request is a failure: an error of the
    transport, a status out of 200-299, or a body that is no catalog. *)
Definition catalogFails (answer : Response + error) : bool :=
  match answer with
  | inr _ => true
  | inl resp =>
      (StatusCode resp <? 200) || (299 <? StatusCode resp)
      || match decodeTitles (Body_of resp) with inr _ => true | inl _ => false end
  end.

(** The event [e], issued after the events [h], is a stat-overlay request
    that failed. *)
Definition overlayFailed (env : Env) (h : list Event) (e : Event) : bool :=
  match e with
  | Post r => overlayFails (Do env h r)
  | Call _ => false
  end.

(** The event [e], issued after the events [h], is a catalog request that
    failed. *)
Definition catalogFailed (env : Env) (h : list Event) (e : Event) : bool :=
  match e with
  | Call r => match Payload_of r with QueryTitles => catalogFails (Do env h r) | _ => false end
  | Post _ => false
  end.

Definition enrichmentFailed (env : Env) (h : list Event) (e : Event) : bool :=
  catalogFailed env h e || overlayFailed env h e.

(** Some event of [new], issued in this order after the events [h],
    satisfies [p]. *)
Fixpoint anyEvent (p : list Event -> Event -> bool) (h new : list Event) : bool :=
  match new with
  | [] => false
  | e :: rest => p h e || anyEvent p (h ++ [e]) rest
  end.

(** The events a run added to those of the state it started in. *)
Definition issued (st st' : State) : list Event :=
  drop (length (sent st)) (sent st').

(** ** The debug log *)

(** [strings.Replace(urlPath, "/", "_", -1)]. *)
Fixpoint replaceSlashes (urlPath : string) : string :=
  match urlPath with
  | EmptyString => EmptyString
  | String ch rest =>
      String (if Ascii.eqb ch "/" then "_"%char else ch) (replaceSlashes rest)
  end.

(** Lines 211-212 of [writeLogFile]: the name of the log file, which is
    then joined to the directory of temporary files. *)
Definition logFileName (urlPath method reqresp : string) : string :=
  ("swgohhelp" ++ replaceSlashes urlPath ++ "-" ++ method ++ "-" ++ reqresp ++ ".log")%string.

(** ** The requests of the batch fetch *)

(** Line 149: the request [call] builds for the batch of misses, given that
    its URL parses. *)
Definition profileRequest (env : Env) (c : Client) (missingFromCache : list Z) : Request :=
  setHeaders c "application/json"
             (mkRequest "POST" (Sprintf env (endpoint c ++ "/swgoh/player")%string []) ∅
                        (playersPayload missingFromCache)).

(** Line 182: the request [c.hc.Post] builds for a roster, given that its
    URL parses. *)
Definition statRequest (roster : list Unit) : Request :=
  http.Header_Set (mkRequest "POST" statURL ∅ (RosterPayload roster))
                  "Content-Type" "application/json".

(** The identifier has an entry in the player cache that has not expired. *)
Definition cached (now : Z) (store : cache.Cache Player) (ally : Z) : bool :=
  match cache.Get now store (strconv.Itoa ally) with Some _ => true | None => false end.

(** The requests issued through [c.hc.Post] among some events. *)
Definition postRequests (events : list Event) : list Request :=
  omap (fun e => match e with Post r => Some r | Call _ => None end) events.

(** The requests issued through [call] among some events. *)
Definition callRequests (events : list Event) : list Request :=
  omap (fun e => match e with Call r => Some r | Post _ => None end) events.

(** The answer to the profile-batch request is a failure: an error of the
    transport, a status out of 200-299, or a body that is no list of
    players. *)
Definition profileFails (answer : Response + error) : bool :=
  match answer with
  | inr _ => true
  | inl resp =>
      (StatusCode resp <? 200) || (299 <? StatusCode resp)
      || match decodePlayers (Body_of resp) [] with inr _ => true | inl _ => false end
  end.

(** The same answer under another status line. *)
Definition setStatus (code : Z) (status : string) (answer : Response + error)
  : Response + error :=
  match answer with
  | inl resp => inl (mkResponse code status (Body_of resp))
  | inr err => inr err
  end.

(** The same world, except that the stat service answers under the status
    line given. *)
Definition statStatus (code : Z) (status : string) (env : Env) : Env :=
  mkEnv (Sprintf env) (url_Parse env)
        (fun h req =>
           match Payload_of req with
           | RosterPayload _ => setStatus code status (Do env h req)
           | _ => Do env h req
           end)
        (Now env).

(** ** The runs of the batch fetch *)

(** The cache hits of a batch, in the order of the batch. *)
Definition hitsOf (now : Z) (store : cache.Cache Player) (allyCodeNumbers : list Z)
  : list Player :=
  omap (fun ally => cache.Get now store (strconv.Itoa ally)) allyCodeNumbers.

(** The misses of a batch, in the order of the batch. *)
Definition missesOf (now : Z) (store : cache.Cache Player) (allyCodeNumbers : list Z)
  : list Z :=
  filter (fun ally => cached now store ally = false) allyCodeNumbers.

(** The identifier has an entry that has not expired in what the file of
    the player cache yielded when the client was made. *)
Definition persisted (file : option (gmap string (Player * Z))) (now : Z) (ally : Z) : bool :=
  match file with
  | Some stored =>
      match stored !! strconv.Itoa ally with
      | Some (_, expires) => negb (expires <? now)
      | None => false
      end
  | None => false
  end.

(** The ways in which the enrichment of the decoded records [players1],
    entered in the state [st1], returns: the catalog fetch fails, the stat
    loop fails, or the records the stat loop leaves are saved and
    returned. *)
Inductive EnrichRun (env : Env) (st1 : State) (players1 : list Player)
  : list Player * option error -> State -> Prop :=
  | RunCatalogError titles err st2 :
      DataPlayerTitles env st1 = Done (titles, Some err) st2 ->
      EnrichRun env st1 players1 ([], Some err) st2
  | RunOverlayError titles st2 players3 err h3 :
      DataPlayerTitles env st1 = Done (titles, None) st2 ->
      statLoop env (seq 0 (length (enrichTitles titles players1)))
               (enrichTitles titles players1) (sent st2) = (players3, Some err, h3) ->
      EnrichRun env st1 players1 ([], Some err) (mkState (client st2) h3)
  | RunEnriched titles st2 players3 h3 :
      DataPlayerTitles env st1 = Done (titles, None) st2 ->
      statLoop env (seq 0 (length (enrichTitles titles players1)))
               (enrichTitles titles players1) (sent st2) = (players3, None, h3) ->
      EnrichRun env st1 players1 (players3, None)
                (mkState (setPlayers (client st2)
                                     (savePlayers (Now env h3) (players (client st2)) players3))
                         h3).

(** The ways in which [Players] returns: an identifier does not normalize;
    every identifier is a cache hit; the profile-batch request for the
    misses fails; or its answer is decoded onto the hits and enriched. *)
Inductive PlayersRun (env : Env) (allyCodes : list string) (st : State)
  : list Player * option error -> State -> Prop :=
  | RunParseError ns err :
      parseAllyCodes allyCodes = (ns, Some err) ->
      PlayersRun env allyCodes st ([], Some (ParseAllyCodesErr err)) st
  | RunAllHits ns :
      parseAllyCodes allyCodes = (ns, None) ->
      missesOf (Now env (sent st)) (players (client st)) ns = [] ->
      PlayersRun env allyCodes st (hitsOf (Now env (sent st)) (players (client st)) ns, None) st
  | RunProfileError ns err :
      parseAllyCodes allyCodes = (ns, None) ->
      let missing := missesOf (Now env (sent st)) (players (client st)) ns in
      let req := profileRequest env (client st) missing in
      missing <> [] ->
      profileFails (Do env (sent st) req) = true ->
      PlayersRun env allyCodes st ([], Some err)
                 (mkState (client st) (sent st ++ [Call req]))
  | RunFetched ns resp arr res st' :
      parseAllyCodes allyCodes = (ns, None) ->
      let hits := hitsOf (Now env (sent st)) (players (client st)) ns in
      let missing := missesOf (Now env (sent st)) (players (client st)) ns in
      let req := profileRequest env (client st) missing in
      missing <> [] ->
      Do env (sent st) req = inl resp ->
      200 <= StatusCode resp <= 299 ->
      Body_of resp = Readable (JPlayers arr) ->
      EnrichRun env (mkState (client st) (sent st ++ [Call req]))
                (json.decode_array zeroPlayer hits arr) res st' ->
      PlayersRun env allyCodes st res st'.

(** The events of the state a run left; none when it panicked. *)
Definition state_sent {A : Type} (o : Outcome A) : list Event :=
  match o with Panic => [] | Done _ st => sent st end.

(** The results of a run; none when it panicked. *)
Definition results_of {A : Type} (o : Outcome A) : option A :=
  match o with Panic => None | Done r _ => Some r end.

(** The state a run left, and its results; those given when it panicked. *)
Definition state_after {A : Type} (o : Outcome A) (st : State) : State :=
  match o with Panic => st | Done _ st' => st' end.

Definition results_after {A : Type} (o : Outcome A) (r : A) : A :=
  match o with Panic => r | Done r' _ => r' end.

(** ** Scenarios *)

(** A profile service, a catalog and a stat service to run the client
    against. *)
Module Scenario.

Definition catalog : gmap string DataPlayerTitle :=
  {[ "t1" := mkDataPlayerTitle "t1" "Conqueror" ]}.

Definition vader : Unit := mkUnit "VADER" 85 [("speed", 121)].
Definition yoda : Unit := mkUnit "YODA" 80 [("speed", 140)].

(** The stat service adds the speed of the mods to a unit. *)
Definition recalculated (u : Unit) : Unit :=
  mkUnit (DefID u) (UnitLevel u) (("speed from mods", 30) :: Stats u).

(** A is held by the cache, in the form a former fetch left it in. *)
Definition playerA : Player :=
  mkPlayer "Ann" 123456789 85 "Rebels" (mkPlayerTitle "Conqueror" ["Conqueror"])
           [recalculated vader] 10.

(** B as the profile service holds it. *)
Definition playerB : Player :=
  mkPlayer "Bob" 265924989 84 "Empire" (mkPlayerTitle "t1" ["t1"; "t9"])
           [vader; yoda] 20.

Definition profiles (ally : Z) : option Player :=
  if ally =? 265924989 then Some playerB
  else if ally =? 123456789 then Some playerA
  else None.

Definition ok (d : Document) : Response + error :=
  inl (mkResponse 200 "200 OK" (Readable d)).

(** A service that answers every request; [titles] is its answer to the
    catalog request and [stats] its answer to a roster. *)
Definition service (titles : Response + error) (stats : list Unit -> Response + error)
  (h : list Event) (req : Request) : Response + error :=
  match Payload_of req with
  | Form _ => ok (JAuth (json.full (mkAuthResponse "secret")))
  | QueryPlayers q => ok (JPlayers (json.full <$> omap profiles (allycodes q)))
  | QueryTitles => titles
  | RosterPayload r => stats r
  end.

(** The stat service answers with every unit of the roster. *)
Definition allUnits (r : list Unit) : Response + error :=
  ok (JRoster ((fun u => json.full (recalculated u)) <$> r)).

(** The stat service answers with the first unit of the roster only. *)
Definition firstUnit (r : list Unit) : Response + error :=
  ok (JRoster ((fun u => json.full (recalculated u)) <$> take 1 r)).

(** The stat service answers rosters of more than one unit with a body
    that is no roster. *)
Definition smallOnly (r : list Unit) : Response + error :=
  match r with
  | _ :: _ :: _ => ok Malformed
  | _ => allUnits r
  end.

Definition clock (h : list Event) : Z := 100 + Z.of_nat (length h).

(** [fmt.Sprintf] on the formats of the scenarios, which have no verb and
    are given no operand: the format itself. *)
Definition verbatim (format : string) (args : list Operand) : string := format.

Definition env (stats : list Unit -> Response + error) : Env :=
  mkEnv verbatim (fun _ => None) (service (ok (JTitles catalog)) stats) clock.

(** The catalog is out of service. *)
Definition catalogDown : Env :=
  mkEnv verbatim (fun _ => None)
        (service (inl (mkResponse 503 "503 Service Unavailable" (Readable Malformed)))
                 allUnits)
        clock.

Definition PlayerCacheExpiration : Z := 3600.
Definition GameDataCacheExpiration : Z := 86400.

(** The client [New] makes when no cache file can be loaded: its caches
    are empty. *)
Definition fresh : Client :=
  New DefaultEndpoint None None GameDataCacheExpiration PlayerCacheExpiration.

(** A client that holds A in its player cache. *)
Definition holdingA : Client :=
  setPlayers fresh (cache.Put 50 (players fresh) "123456789" playerA).

(** What the file of the player cache holds once A was saved at time 50. *)
Definition playersFile : gmap string (Player * Z) :=
  {[ "123456789" := (playerA, 50 + PlayerCacheExpiration) ]}.

(** The client [New] makes after a restart: the catalog file is absent,
    the file of the player cache still holds A. *)
Definition restarted : Client :=
  New DefaultEndpoint None (Some playersFile) GameDataCacheExpiration PlayerCacheExpiration.

(** A sign-in service whose answer is an object without access token. *)
Definition anonymous : Env :=
  mkEnv verbatim (fun _ => None) (fun _ _ => ok (JAuth (fun a => a))) (fun _ => 0).

(** Of the checks of [url.Parse], the one that refuses control bytes. *)
Fixpoint rejectControl (url : string) : option error :=
  match url with
  | EmptyString => None
  | String ch url' =>
      if (nat_of_ascii ch <? 32)%nat || (nat_of_ascii ch =? 127)%nat
      then Some (LibErr "net/url: invalid control character in URL")
      else rejectControl url'
  end.

(** A client whose endpoint was read with the end of its line. *)
Definition trailingNewline : Client :=
  mkClient (DefaultEndpoint ++ String (ascii_of_nat 10) "")%string "" false
           (cache.NewCache None GameDataCacheExpiration)
           (cache.NewCache None PlayerCacheExpiration).

(** Nothing answers. *)
Definition offline : Env :=
  mkEnv verbatim (fun _ => None) (fun _ _ => inr (LibErr "dial tcp: connection refused")) clock.

End Scenario.

(** * Properties *)

(** ** The key normalizer *)

Section Normalizer.

Local Abbreviation MaxInt := strconv.MaxInt.

Lemma is_digit_digit_of ch :
  is_digit ch = true -> strconv.digit_of ch = Some (Z.of_nat (nat_of_ascii ch) - 48).
Proof.
  unfold is_digit, strconv.digit_of. intros H.
  apply andb_true_iff in H as [H1 H2].
  apply Nat.leb_le in H1. apply Nat.leb_le in H2.
  replace (48 <=? Z.of_nat (nat_of_ascii ch)) with true by (symmetry; apply Z.leb_le; lia).
  replace (Z.of_nat (nat_of_ascii ch) <=? 57) with true by (symmetry; apply Z.leb_le; lia).
  reflexivity.
Qed.

Lemma is_digit_not_sign ch :
  is_digit ch = true -> Ascii.eqb ch "-" = false /\ Ascii.eqb ch "+" = false.
Proof.
  intros H. split; apply Ascii.eqb_neq; intros ->; vm_compute in H; discriminate.
Qed.

(** The loop of Atoi over the cleaned string computes the integer the
    digits write, after the digits accumulated so far. *)
Lemma digits_cleanup s : forall n,
  strconv.digits n (allyCodeCleanup s)
  = Some (n * 10 ^ Z.of_nat (length (digits_of s)) + concatenated (digits_of s)).
Proof.
  induction s as [|ch s IH]; intros n; simpl.
  - f_equal. lia.
  - destruct (is_digit ch) eqn:Hd; simpl; [|apply IH].
    rewrite (is_digit_digit_of _ Hd), IH. f_equal.
    rewrite Nat2Z.inj_succ, Z.pow_succ_r by lia. ring.
Qed.

Lemma cleanup_shape s :
  (allyCodeCleanup s = "" /\ digits_of s = [])
  \/ (exists ch rest, allyCodeCleanup s = String ch rest /\ is_digit ch = true
                      /\ digits_of s <> []).
Proof.
  induction s as [|ch s IH]; simpl; [left; done|].
  destruct (is_digit ch) eqn:Hd; [|exact IH].
  right. exists ch, (allyCodeCleanup s). done.
Qed.

(** Atoi on a cleaned string. *)
Lemma Atoi_cleanup s :
  strconv.Atoi (allyCodeCleanup s)
  = if has_digit s then
      if MaxInt <? concatenated (digits_of s)
      then strconv.rangeError MaxInt (allyCodeCleanup s)
      else (concatenated (digits_of s), None)
    else strconv.syntaxError "".
Proof.
  unfold has_digit.
  destruct (cleanup_shape s) as [[Hc Hd]|(ch & rest & Hc & Hdig & Hd)].
  - rewrite Hc, Hd. reflexivity.
  - pose proof (digits_cleanup s 0) as Hv. rewrite Hc in Hv |- *.
    destruct (is_digit_not_sign _ Hdig) as [Hm Hp].
    unfold strconv.Atoi. rewrite Hm, Hp. cbn [orb].
    rewrite Hv. destruct (digits_of s) as [|d ds]; [done|].
    replace (0 * 10 ^ Z.of_nat (length (d :: ds)) + concatenated (d :: ds))
      with (concatenated (d :: ds)) by lia.
    reflexivity.
Qed.

Lemma parseAllyCodes_loop_app acc l :
  (forall a, a ∈ l -> snd (strconv.Atoi (allyCodeCleanup a)) = None) ->
  parseAllyCodes_loop acc l
  = (acc ++ ((fun a => fst (strconv.Atoi (allyCodeCleanup a))) <$> l), None).
Proof.
  revert acc. induction l as [|a l IH]; intros acc Hall; simpl.
  - by rewrite app_nil_r.
  - pose proof (Hall a ltac:(left)) as Ha.
    destruct (strconv.Atoi (allyCodeCleanup a)) as [n [e|]]; [done|].
    rewrite IH by (intros b Hb; apply Hall; by right).
    by rewrite <- app_assoc.
Qed.

Lemma parseAllyCodes_loop_fail acc pre a post e :
  (forall b, b ∈ pre -> snd (strconv.Atoi (allyCodeCleanup b)) = None) ->
  snd (strconv.Atoi (allyCodeCleanup a)) = Some e ->
  parseAllyCodes_loop acc (pre ++ a :: post) = ([], Some e).
Proof.
  revert acc. induction pre as [|b pre IH]; intros acc Hpre Ha; simpl.
  - destruct (strconv.Atoi (allyCodeCleanup a)) as [n [e'|]]; simpl in Ha; congruence.
  - pose proof (Hpre b ltac:(left)) as Hb.
    destruct (strconv.Atoi (allyCodeCleanup b)) as [n [e'|]]; [done|].
    apply IH; [|done]. intros c Hc. apply Hpre. by right.
Qed.

End Normalizer.

Lemma normalizes_Atoi a :
  normalizes a ->
  strconv.Atoi (allyCodeCleanup a) = (concatenated (digits_of a), None).
Proof.
  intros [Hd Hm]. rewrite Atoi_cleanup, Hd.
  by replace (strconv.MaxInt <? concatenated (digits_of a)) with false
    by (symmetry; apply Z.ltb_ge; lia).
Qed.

Lemma not_normalizes_Atoi a :
  ~ normalizes a ->
  exists v e, strconv.Atoi (allyCodeCleanup a) = (v, Some e)
              /\ strconv.Num e = allyCodeCleanup a.
Proof.
  intros Hn. rewrite Atoi_cleanup. destruct (has_digit a) eqn:Hd.
  - destruct (strconv.MaxInt <? concatenated (digits_of a)) eqn:Hm.
    + eexists _, _. split; reflexivity.
    + exfalso. apply Hn. split; [done|]. by apply Z.ltb_ge.
  - eexists _, _. split; [reflexivity|]. simpl.
    destruct (cleanup_shape a) as [[Hc _]|(ch & rest & _ & _ & Hne)]; [done|].
    unfold has_digit in Hd. destruct (digits_of a); done.
Qed.

(** C4 (amended).  On one identifier the normalizer returns the integer
    that the digits of the string write, in order, whenever the string has
    a digit and that integer fits [int]; a string whose digits write an
    integer beyond [int] fails with a range error, and a string without
    digits fails with a syntax error. *)
Theorem parseAllyCodes_one (s : string) :
  parseAllyCodes [s]
  = if has_digit s then
      if concatenated (digits_of s) <=? strconv.MaxInt
      then ([concatenated (digits_of s)], None)
      else ([], Some (strconv.mkNumError "Atoi" (allyCodeCleanup s) strconv.ErrRange))
    else ([], Some (strconv.mkNumError "Atoi" "" strconv.ErrSyntax)).
Proof.
  unfold parseAllyCodes. simpl. rewrite Atoi_cleanup.
  destruct (has_digit s); [|reflexivity].
  rewrite Z.leb_antisym.
  destruct (strconv.MaxInt <? concatenated (digits_of s)); reflexivity.
Qed.

Example parseAllyCodes_dashes : parseAllyCodes ["123-456-789"] = ([123456789], None).
Proof. reflexivity. Qed.

Example parseAllyCodes_no_digit :
  parseAllyCodes ["n/a"] = ([], Some (strconv.mkNumError "Atoi" "" strconv.ErrSyntax)).
Proof. reflexivity. Qed.

(** C4 as stated fails on a string of twenty nines: it has digits, and the
    normalizer returns a range error where the claim has the integer. *)
Lemma parseAllyCodes_twenty_nines :
  has_digit "99999999999999999999" = true
  /\ parseAllyCodes ["99999999999999999999"]
     = ([], Some (strconv.mkNumError "Atoi" "99999999999999999999" strconv.ErrRange))
  /\ parseAllyCodes ["99999999999999999999"]
     <> ([concatenated (digits_of "99999999999999999999")], None).
Proof. split; [reflexivity|]. split; [reflexivity|]. vm_compute. discriminate. Qed.

(** C5 (amended).  When every identifier of the batch normalizes, the
    result holds their integers in the order of the input.  Otherwise the
    batch fails as a whole at the first identifier that does not: no list
    is returned, and the error names the digits left of that identifier
    after the cleanup (which is the raw input only when it has nothing but
    digits). *)
Theorem parseAllyCodes_batch (l : list string) :
  ((forall a, a ∈ l -> normalizes a) ->
   parseAllyCodes l = ((fun a => concatenated (digits_of a)) <$> l, None))
  /\ (forall pre a post,
        l = pre ++ a :: post ->
        (forall b, b ∈ pre -> normalizes b) ->
        ~ normalizes a ->
        exists e, parseAllyCodes l = ([], Some e)
                  /\ strconv.Num e = allyCodeCleanup a).
Proof.
  split.
  - intros Hall. unfold parseAllyCodes.
    rewrite parseAllyCodes_loop_app.
    + simpl. f_equal. apply list_fmap_ext. intros i a Hi.
      apply list_elem_of_lookup_2 in Hi.
      by rewrite (normalizes_Atoi a (Hall a Hi)).
    + intros a Ha. by rewrite (normalizes_Atoi a (Hall a Ha)).
  - intros pre a post -> Hpre Ha.
    destruct (not_normalizes_Atoi a Ha) as (v & e & He & Hnum).
    exists e. split; [|done]. unfold parseAllyCodes.
    apply parseAllyCodes_loop_fail.
    + intros b Hb. by rewrite (normalizes_Atoi b (Hpre b Hb)).
    + by rewrite He.
Qed.

Lemma parseAllyCodes_batch_witness :
  parseAllyCodes ["123-456-789"; "007"] = ([123456789; 7], None)
  /\ exists e, parseAllyCodes ["12"; "abc"; "7"] = ([], Some e)
               /\ strconv.Num e = "".
Proof.
  split.
  - apply (proj1 (parseAllyCodes_batch ["123-456-789"; "007"])).
    intros a Ha. apply list_elem_of_In in Ha. simpl in Ha.
    destruct Ha as [<-|[<-|[]]]; (split; [reflexivity|vm_compute; discriminate]).
  - apply (proj2 (parseAllyCodes_batch ["12"; "abc"; "7"]) ["12"] "abc" ["7"]).
    + reflexivity.
    + intros b Hb. apply list_elem_of_In in Hb. simpl in Hb.
      destruct Hb as [<-|[]]. split; [reflexivity|vm_compute; discriminate].
    + intros [H _]. vm_compute in H. discriminate.
Defined.

(** C5 as stated fails on the batch ["12"; "abc"]: the error returned for
    "abc" names the empty string that the cleanup leaves, in no field the
    raw input. *)
Lemma parseAllyCodes_error_names_cleaned :
  parseAllyCodes ["12"; "abc"]
  = ([], Some (strconv.mkNumError "Atoi" "" strconv.ErrSyntax))
  /\ strconv.Num (strconv.mkNumError "Atoi" "" strconv.ErrSyntax) <> "abc"
  /\ strconv.Func (strconv.mkNumError "Atoi" "" strconv.ErrSyntax) <> "abc".
Proof. split; [reflexivity|]. split; discriminate. Qed.

(** ** Title enrichment *)

(** A loop that rewrites a slice in place, index after index, maps the
    rewriting over the slice. *)
Lemma index_loop_fmap {A : Type} (f : A -> A) (todo : list A) : forall written : list A,
  foldl (fun acc i =>
           match acc !! i with
           | Some x => <[i := f x]> acc
           | None => acc
           end)
        (written ++ todo) (seq (length written) (length todo))
  = written ++ (f <$> todo).
Proof.
  induction todo as [|x todo IH]; intros written; simpl; [done|].
  rewrite list_lookup_middle by done.
  replace (<[length written := f x]> (written ++ x :: todo))
    with ((written ++ [f x]) ++ todo).
  - replace (S (length written)) with (length (written ++ [f x]))
      by (rewrite length_app; simpl; lia).
    rewrite IH. by rewrite <- app_assoc.
  - rewrite <- app_assoc, insert_app_r_alt by lia.
    by rewrite Nat.sub_diag.
Qed.

Lemma rewriteUnlocked_fmap titles unlocked :
  rewriteUnlocked titles unlocked = titleName titles <$> unlocked.
Proof. apply (index_loop_fmap (titleName titles) unlocked []). Qed.

Lemma titleName_display titles key : titleName titles key = display titles key.
Proof. unfold titleName, display. by destruct (titles !! key). Qed.

(** The title loop maps over the records: each is left with the display
    names of its title keys, and is otherwise as it was. *)
Lemma enrichTitles_fmap titles ps :
  enrichTitles titles ps
  = (fun p => setTitles p (mkPlayerTitle (display titles (Selected (Titles p)))
                                         (display titles <$> Unlocked (Titles p))))
    <$> ps.
Proof.
  unfold enrichTitles.
  etrans.
  { exact (index_loop_fmap
             (fun p => setTitles p (mkPlayerTitle
                                      (titleName titles (Selected (Titles p)))
                                      (rewriteUnlocked titles (Unlocked (Titles p)))))
             ps []). }
  simpl. apply list_fmap_ext. intros i p _.
  rewrite rewriteUnlocked_fmap, titleName_display. do 2 f_equal.
  apply list_fmap_ext. intros j k _. apply titleName_display.
Qed.

(** C6.  The title loop always ends, and leaves as many records as it was
    given.  Read off the records it leaves, in order, the selected titles
    are the display names the catalog holds for the selected keys of the
    records given, and the unlocked titles are, element by element, the
    display names of their unlocked keys; the display name of a key the
    catalog does not hold is the empty name. *)
Theorem enrichTitles_display (titles : gmap string DataPlayerTitle) (players : list Player) :
  (fun p => Selected (Titles p)) <$> enrichTitles titles players
  = (fun p => from_option Name "" (titles !! Selected (Titles p))) <$> players
  /\ (fun p => Unlocked (Titles p)) <$> enrichTitles titles players
     = (fun p => (fun key => from_option Name "" (titles !! key)) <$> Unlocked (Titles p))
       <$> players
  /\ length (enrichTitles titles players) = length players.
Proof.
  rewrite enrichTitles_fmap, <- !list_fmap_compose, length_fmap.
  split; [|split; [|done]].
  - apply list_fmap_ext. intros i p _. simpl. unfold display.
    by destruct (titles !! Selected (Titles p)).
  - apply list_fmap_ext. intros i p _. simpl.
    apply list_fmap_ext. intros j key _. unfold display. by destruct (titles !! key).
Qed.

Example enrichTitles_catalog :
  Titles <$> enrichTitles Scenario.catalog [Scenario.playerB]
  = [mkPlayerTitle "Conqueror" ["Conqueror"; ""]].
Proof. reflexivity. Qed.

(** ** Calls *)

Lemma NewRequest_cases env method url body :
  (exists err, http.NewRequest env method url body = (None, Some err))
  \/ (exists m, http.NewRequest env method url body = (Some (mkRequest m url ∅ body), None)).
Proof.
  unfold http.NewRequest.
  destruct (http.validMethod _); [|left; eauto].
  destruct (url_Parse env url); [left|right]; eauto.
Qed.

(** A call that returns has issued one request, built without headers and
    given those of [setHeaders], and returns what [checkStatus] makes of
    the answer. *)
Lemma call_Done env method urlPath contentType body args st res st' :
  call env method urlPath contentType body args st = Done res st' ->
  exists m,
    let url := Sprintf env (endpoint (client st) ++ urlPath)%string args in
    let req := setHeaders (client st) contentType (mkRequest m url ∅ body) in
    st' = mkState (client st) (sent st ++ [Call req])
    /\ res = checkStatus url (Do env (sent st) req).
Proof.
  unfold call.
  destruct (NewRequest_cases env method (Sprintf env (endpoint (client st) ++ urlPath)%string args) body)
    as [[err ->]|[m ->]]; [done|].
  intros [= <- <-]. by exists m.
Qed.

Lemma setHeaders_Authorization c contentType m url body :
  Header (setHeaders c contentType (mkRequest m url ∅ body)) !! "Authorization"
  = if String.eqb (token c) "" then None else Some ("Bearer " ++ token c)%string.
Proof.
  unfold setHeaders. destruct (String.eqb (token c) ""); simpl.
  - replace (http.CanonicalHeaderKey "Content-type") with "Content-Type" by reflexivity.
    by rewrite lookup_insert_ne, lookup_empty.
  - replace (http.CanonicalHeaderKey "Authorization") with "Authorization" by reflexivity.
    by rewrite lookup_insert_eq.
Qed.

Lemma setHeaders_Payload c contentType req :
  Payload_of (setHeaders c contentType req) = Payload_of req.
Proof. unfold setHeaders. by destruct (String.eqb (token c) ""). Qed.

(** A sign-in that succeeds leaves the access token in the client. *)
Lemma SignIn_token env username password st t st' :
  SignIn env username password st = Done (t, None) st' ->
  token (client st') = t.
Proof.
  unfold SignIn.
  destruct (call _ _ _ _ _ _ _) as [|[[resp|] [err|]] st1]; try done.
  destruct (decodeAuth _); [|done]. by intros [= <- <-].
Qed.

(** C10.  Whenever [http.NewRequest] returns an error, [call] does not
    return it: the request is nil, and setting the headers on it, which
    comes before the error is looked at, panics. *)
Theorem call_nil_request env method urlPath contentType body args st err :
  snd (http.NewRequest env method (Sprintf env (endpoint (client st) ++ urlPath)%string args) body) = Some err ->
  fst (http.NewRequest env method (Sprintf env (endpoint (client st) ++ urlPath)%string args) body) = None
  /\ call env method urlPath contentType body args st = Panic.
Proof.
  intros H. unfold call.
  destruct (NewRequest_cases env method (Sprintf env (endpoint (client st) ++ urlPath)%string args) body)
    as [[e Hn]|[m Hn]]; rewrite Hn in H |- *; [done|discriminate].
Qed.

Lemma call_nil_request_witness :
  call (mkEnv Scenario.verbatim Scenario.rejectControl
                    (Do (Scenario.env Scenario.allUnits)) Scenario.clock)
       "POST" "/auth/signin" "application/x-www-form-urlencoded" (Form "") []
       (mkState Scenario.trailingNewline [])
  = Panic.
Proof.
  refine (proj2 (call_nil_request _ _ _ _ _ _ _
                   (LibErr "net/url: invalid control character in URL") _)).
  reflexivity.
Defined.

(** C9 (amended).  After a sign-in that succeeded with access token [t],
    and as long as the client holds that token, a call that returns has
    issued one request; that request carries the header
    [Authorization: Bearer t] when [t] is not empty, and no Authorization
    header when [t] is empty. *)
Theorem call_bearer_token env env' username password st0 t st1
    method urlPath contentType body args st res st2 :
  SignIn env username password st0 = Done (t, None) st1 ->
  token (client st) = token (client st1) ->
  call env' method urlPath contentType body args st = Done res st2 ->
  exists req,
    sent st2 = sent st ++ [Call req]
    /\ Header req !! "Authorization"
       = if String.eqb t "" then None else Some ("Bearer " ++ t)%string.
Proof.
  intros Hs Ht Hc. apply SignIn_token in Hs. apply call_Done in Hc as (m & -> & _).
  eexists. split; [reflexivity|]. rewrite setHeaders_Authorization. by rewrite Ht, Hs.
Qed.

Lemma call_bearer_token_witness :
  exists st1 req res st2,
    SignIn (Scenario.env Scenario.allUnits) "user" "password" (mkState Scenario.fresh [])
    = Done ("secret", None) st1
    /\ call (Scenario.env Scenario.allUnits) "POST" "/swgoh/data" "application/json"
            QueryTitles [] st1 = Done res st2
    /\ sent st2 = sent st1 ++ [Call req]
    /\ Header req !! "Authorization" = Some "Bearer secret".
Proof.
  eexists _, _, _, _.
  split; [reflexivity|]. split; [reflexivity|].
  edestruct (call_bearer_token (Scenario.env Scenario.allUnits) (Scenario.env Scenario.allUnits)
               "user" "password" (mkState Scenario.fresh []) "secret" _
               "POST" "/swgoh/data" "application/json" QueryTitles [] _ _ _
               eq_refl eq_refl eq_refl)
    as (req & Hsent & Hauth).
  apply app_inj_tail in Hsent as [_ [= <-]].
  split; [reflexivity|exact Hauth].
Defined.

(** The calls of the catalog fetch and of the batch fetch do not change
    the token. *)
Lemma call_client env method urlPath contentType body args st res st' :
  call env method urlPath contentType body args st = Done res st' -> client st' = client st.
Proof. by intros (m & -> & _)%call_Done. Qed.

(** C9 as stated fails when the sign-in answer holds no access token: the
    sign-in succeeds and stores the empty token, and the request of the
    next call has no Authorization header (the claim has [Bearer] followed
    by the token).  The sign-in request itself has none either. *)
Lemma call_without_token :
  exists st1 signin req res st2,
    SignIn Scenario.anonymous "user" "password" (mkState Scenario.fresh [])
    = Done ("", None) st1
    /\ sent st1 = [Call signin]
    /\ Header signin !! "Authorization" = None
    /\ call Scenario.anonymous "POST" "/swgoh/data" "application/json" QueryTitles [] st1
       = Done res st2
    /\ sent st2 = sent st1 ++ [Call req]
    /\ Header req !! "Authorization" = None
    /\ Header req !! "Authorization" <> Some "Bearer ".
Proof.
  eexists _, _, _, _, _.
  split; [reflexivity|]. split; [reflexivity|]. split; [reflexivity|].
  split; [reflexivity|]. split; [reflexivity|]. split; [reflexivity|].
  discriminate.
Qed.

(** ** The batch fetch *)

Lemma anyEvent_app p h new1 new2 :
  anyEvent p h (new1 ++ new2) = anyEvent p h new1 || anyEvent p (h ++ new1) new2.
Proof.
  revert h. induction new1 as [|e new1 IH]; intros h; simpl.
  - by rewrite app_nil_r.
  - rewrite IH, <- app_assoc. simpl. by rewrite orb_assoc.
Qed.

Lemma anyEvent_weaken (p q : list Event -> Event -> bool) h new :
  (forall h e, p h e = true -> q h e = true) ->
  anyEvent p h new = true -> anyEvent q h new = true.
Proof.
  intros Hpq. revert h. induction new as [|e new IH]; intros h; simpl; [done|].
  intros [H|H]%orb_true_iff; apply orb_true_iff; [left|right]; auto.
Qed.

Lemma profileRequests_app new1 new2 :
  profileRequests (new1 ++ new2) = profileRequests new1 ++ profileRequests new2.
Proof. apply omap_app. Qed.

Lemma issued_app st st' new : sent st' = sent st ++ new -> issued st st' = new.
Proof. unfold issued. intros ->. apply drop_app_length. Qed.

(** The stat loop only adds stat requests, and when it ends without error
    none of them failed. *)
Lemma statLoop_trace env indices : forall players h players' err h',
  statLoop env indices players h = (players', err, h') ->
  exists new,
    h' = h ++ new
    /\ profileRequests new = []
    /\ (err = None -> anyEvent (enrichmentFailed env) h new = false).
Proof.
  induction indices as [|i indices IH]; intros players h players' err h'; simpl.
  { intros [= <- <- <-]. exists []. by rewrite app_nil_r. }
  destruct (players !! i) as [player|].
  2:{ intros [= <- <- <-]. exists []. by rewrite app_nil_r. }
  unfold hc_Post.
  destruct (NewRequest_cases env "POST" statURL (RosterPayload (Roster player)))
    as [[e ->]|[m ->]].
  { intros [= <- <- <-]. exists []. by rewrite app_nil_r. }
  set (req := http.Header_Set _ _ _).
  destruct (Do env h req) as [resp|e] eqn:Hdo.
  2:{ intros [= <- <- <-]. exists [Post req]. done. }
  destruct (decodeRoster (Body_of resp)) as [us|e] eqn:Hdec.
  2:{ intros [= <- <- <-]. exists [Post req]. done. }
  simpl. intros Hloop. apply IH in Hloop as (new & -> & Hprof & Hok).
  exists (Post req :: new). split; [by rewrite <- app_assoc|]. split; [done|].
  intros Herr. simpl. unfold enrichmentFailed at 1. simpl.
  unfold overlayFails. rewrite Hdo, Hdec. simpl. auto.
Qed.

(** The catalog fetch keeps the player cache, adds at most the catalog
    request, and when it succeeds that request did not fail. *)
Lemma DataPlayerTitles_Done env st titles err st' :
  DataPlayerTitles env st = Done (titles, err) st' ->
  exists new,
    sent st' = sent st ++ new
    /\ profileRequests new = []
    /\ players (client st') = players (client st)
    /\ (err = None -> anyEvent (enrichmentFailed env) (sent st) new = false).
Proof.
  unfold DataPlayerTitles.
  destruct (cache.Get _ _ _) as [t|].
  { intros [= <- <- <-]. exists []. by rewrite app_nil_r. }
  destruct (call _ _ _ _ _ _ _) as [|res st1] eqn:Hcall; [done|].
  apply call_Done in Hcall as (m & -> & ->). simpl.
  set (req := setHeaders _ _ _).
  assert (Hpay : Payload_of req = QueryTitles) by apply setHeaders_Payload.
  assert (Hprof : profileRequests [Call req] = []).
  { unfold profileRequests. simpl. by rewrite Hpay. }
  unfold checkStatus.
  destruct (Do env (sent st) req) as [resp|e] eqn:Hdo.
  2:{ intros [= <- <- <-]. exists [Call req]. done. }
  destruct ((StatusCode resp <? 200) || (299 <? StatusCode resp)) eqn:Hstatus.
  { intros [= <- <- <-]. exists [Call req]. done. }
  destruct (decodeTitles (Body_of resp)) as [t|e] eqn:Hdec.
  2:{ intros [= <- <- <-]. exists [Call req]. done. }
  intros [= <- <- <-]. exists [Call req]. simpl. repeat split; try done.
  intros _. unfold enrichmentFailed, catalogFailed, catalogFails.
  by rewrite Hpay, Hdo, Hstatus, Hdec.
Qed.

(** The three ways in which [Players] returns: with an error, having left
    the player cache as it was; with the cache hits, having issued
    nothing; or with the records the stat loop left, having issued one
    profile-batch request for the misses and saved those records. *)
Lemma Players_Done env allyCodes st res st' :
  Players env allyCodes st = Done res st' ->
  (exists err,
      res = ([], Some err)
      /\ players (client st') = players (client st))
  \/ (exists allyCodeNumbers hits,
         parseAllyCodes allyCodes = (allyCodeNumbers, None)
         /\ probe (Now env (sent st)) (players (client st)) [] [] allyCodeNumbers = (hits, [])
         /\ res = (hits, None) /\ st' = st)
  \/ (exists allyCodeNumbers hits missing new players3,
         parseAllyCodes allyCodes = (allyCodeNumbers, None)
         /\ probe (Now env (sent st)) (players (client st)) [] [] allyCodeNumbers
            = (hits, missing)
         /\ missing <> []
         /\ res = (players3, None)
         /\ sent st' = sent st ++ new
         /\ profileRequests new
            = [mkPlayersQuery missing "eng_us" false playersProjection]
         /\ anyEvent (enrichmentFailed env) (sent st) new = false
         /\ players (client st')
            = savePlayers (Now env (sent st')) (players (client st)) players3).
Proof.
  unfold Players.
  destruct (parseAllyCodes allyCodes) as [allyCodeNumbers [err|]] eqn:Hparse.
  { cbn beta iota. intros [= <- <-]. left. eauto. }
  destruct (probe _ _ _ _ _) as [hits missing] eqn:Hprobe.
  destruct missing as [|ally missing].
  { intros [= <- <-]. right. left. eauto 10. }
  destruct (call _ _ _ _ _ _ _) as [|[resp err] st1] eqn:Hcall; [done|].
  apply call_Done in Hcall as (m & -> & Hres). simpl in Hres.
  set (req := setHeaders _ _ _) in *.
  assert (Hpay : Payload_of req = playersPayload (ally :: missing))
    by apply setHeaders_Payload.
  destruct err as [err|].
  { destruct resp; cbn beta iota; intros [= <- <-]; left; eauto. }
  destruct resp as [resp|]; [|done].
  destruct (decodePlayers (Body_of resp) hits) as [players1|err].
  2:{ cbn beta iota. intros [= <- <-]. left. eauto. }
  destruct (DataPlayerTitles env _) as [|[titles err] st2] eqn:Htitles; [done|].
  apply DataPlayerTitles_Done in Htitles as (new2 & Hsent2 & Hprof2 & Hcache2 & Hok2).
  simpl in Hsent2, Hcache2, Hok2.
  destruct err as [err|].
  { cbn beta iota. intros [= <- <-]. left. eauto. }
  destruct (statLoop _ _ _ _) as [[players3 err] h3] eqn:Hloop.
  apply statLoop_trace in Hloop as (new3 & -> & Hprof3 & Hok3).
  destruct err as [err|].
  { cbn beta iota. intros [= <- <-]. left. eauto. }
  intros [= <- <-]. right. right.
  exists allyCodeNumbers, hits, (ally :: missing), (Call req :: new2 ++ new3), players3.
  simpl. rewrite Hcache2, Hsent2.
  repeat split; try done.
  - by rewrite <- !app_assoc.
  - unfold profileRequests in *. simpl. rewrite Hpay. simpl.
    by rewrite omap_app, Hprof2, Hprof3.
  - unfold enrichmentFailed at 1, catalogFailed. rewrite Hpay. simpl.
    rewrite anyEvent_app, Hok2 by done. simpl.
    rewrite <- Hsent2. by apply Hok3.
Qed.

(** A batch with an identifier that does not normalize fails before
    anything is issued. *)
Lemma Players_parse_error env allyCodes st err :
  parseAllyCodes allyCodes = ([], Some err) ->
  Players env allyCodes st = Done ([], Some (ParseAllyCodesErr err)) st.
Proof. intros H. unfold Players. by rewrite H. Qed.

(** A run that returns an error returns no list and leaves the player
    cache as it was. *)
Lemma Players_error env allyCodes st ps err st' :
  Players env allyCodes st = Done (ps, Some err) st' ->
  ps = [] /\ players (client st') = players (client st).
Proof.
  intros H. apply Players_Done in H
    as [(e & [= -> _] & Hc)|[(? & ? & _ & _ & [=] & _)|(? & ? & ? & ? & ? & _ & _ & _ & [=] & _)]].
  done.
Qed.

(** A run in which a catalog or stat request failed returns an error. *)
Lemma Players_enrichment_failure env allyCodes st res st' :
  Players env allyCodes st = Done res st' ->
  anyEvent (enrichmentFailed env) (sent st) (issued st st') = true ->
  exists err, res = ([], Some err) /\ players (client st') = players (client st).
Proof.
  intros H Hfail. apply Players_Done in H
    as [H|[(? & ? & _ & _ & _ & ->)|(? & ? & ? & new & ? & _ & _ & _ & _ & Hsent & _ & Hok & _)]].
  - exact H.
  - unfold issued in Hfail. by rewrite drop_all in Hfail.
  - rewrite (issued_app _ _ _ Hsent) in Hfail. congruence.
Qed.

(** C7.  If a stat-overlay request of a run of [Players] failed (an error
    of the transport, a body that cannot be read, a body that is no
    roster), the run returns an error and the nil list, whatever the
    answers to the stat requests before it. *)
Theorem Players_overlay_fail_fast env allyCodes st res st' :
  Players env allyCodes st = Done res st' ->
  anyEvent (overlayFailed env) (sent st) (issued st st') = true ->
  fst res = [] /\ snd res <> None.
Proof.
  intros H Hfail.
  destruct (Players_enrichment_failure env allyCodes st res st' H) as (err & -> & _); [|done].
  revert Hfail. apply anyEvent_weaken. intros h e He.
  unfold enrichmentFailed. rewrite He. apply orb_true_r.
Qed.

Lemma Players_overlay_fail_fast_witness :
  exists res st',
    Players (Scenario.env Scenario.smallOnly) ["123-456-789"; "265-924-989"]
            (mkState Scenario.fresh []) = Done res st'
    /\ length (issued (mkState Scenario.fresh []) st') = 4%nat
    /\ fst res = [] /\ snd res <> None.
Proof.
  eexists _, _. split; [vm_compute; reflexivity|]. split; [reflexivity|].
  refine (Players_overlay_fail_fast (Scenario.env Scenario.smallOnly)
            ["123-456-789"; "265-924-989"] (mkState Scenario.fresh []) _ _ _ _).
  - vm_compute; reflexivity.
  - vm_compute; reflexivity.
Defined.

(** C8.  If the catalog request or a stat-overlay request of a run of
    [Players] failed, the run returns an error and the player cache is the
    one the run started with: no record of the batch was put in it. *)
Theorem Players_failure_keeps_cache env allyCodes st res st' :
  Players env allyCodes st = Done res st' ->
  anyEvent (enrichmentFailed env) (sent st) (issued st st') = true ->
  snd res <> None /\ players (client st') = players (client st).
Proof.
  intros H Hfail.
  by destruct (Players_enrichment_failure env allyCodes st res st' H Hfail) as (err & -> & ?).
Qed.

Lemma Players_failure_keeps_cache_witness :
  exists res st',
    Players Scenario.catalogDown ["265-924-989"] (mkState Scenario.holdingA [])
    = Done res st'
    /\ snd res <> None /\ players (client st') = players Scenario.holdingA.
Proof.
  eexists _, _. split; [vm_compute; reflexivity|].
  refine (Players_failure_keeps_cache Scenario.catalogDown ["265-924-989"]
            (mkState Scenario.holdingA []) _ _ _ _).
  - vm_compute; reflexivity.
  - vm_compute; reflexivity.
Defined.




(** ** Where the code leaves the claims *)

Lemma overwritten_same_length {A : Type} (zero : A) (old : list A) : forall arr,
  length arr = length old ->
  json.overwritten old arr = json.decode_array zero old arr.
Proof.
  induction old as [|x old IH]; intros [|o arr]; simpl; try done.
  intros [= Hlen]. by rewrite IH.
Qed.

Lemma overwritten_length {A : Type} (old : list A) : forall arr,
  length (json.overwritten old arr) = length old.
Proof.
  induction old as [|x old IH]; intros [|o arr]; simpl; try done.
  by rewrite IH.
Qed.

(** C1 at an input on which it fails.  A is held by the cache and has not
    expired, B is not held.  The run issues one profile-batch request, for
    B alone; it returns B's record, fetched and enriched, and not A's: the
    decoder writes the answer over the slice that held the cache hit. *)
Theorem Players_hit_and_miss :
  cache.Get (Scenario.clock []) (players Scenario.holdingA) "123456789" = Some Scenario.playerA
  /\ cache.Get (Scenario.clock []) (players Scenario.holdingA) "265924989" = None
  /\ exists B' st',
       Players (Scenario.env Scenario.allUnits) ["123-456-789"; "265-924-989"]
               (mkState Scenario.holdingA []) = Done ([B'], None) st'
       /\ allycodes <$> profileRequests (issued (mkState Scenario.holdingA []) st')
          = [[265924989]]
       /\ AllyCode B' = 265924989
       /\ Titles B' = mkPlayerTitle "Conqueror" ["Conqueror"; ""]
       /\ Roster B' = Scenario.recalculated <$> [Scenario.vader; Scenario.yoda]
       /\ Scenario.playerA ∉ [B'].
Proof.
  split; [reflexivity|]. split; [reflexivity|].
  eexists _, _. split; [vm_compute; reflexivity|].
  split; [reflexivity|]. split; [reflexivity|]. split; [reflexivity|].
  split; [reflexivity|].
  intros H%list_elem_of_singleton. discriminate H.
Qed.

(** C2 at an input on which it fails.  The record fetched for B has a
    roster of two units and the stat service answers with one: the roster
    decoded from the answer has that unit alone, and the record [Players]
    returns still has two, the second as it was before the overlay.  The
    stat loop decodes the answer onto the roster of a copy of the record. *)
Theorem Players_roster_of_copy :
  exists p st' us,
    Players (Scenario.env Scenario.firstUnit) ["265-924-989"] (mkState Scenario.fresh [])
    = Done ([p], None) st'
    /\ Scenario.firstUnit (Roster Scenario.playerB) = Scenario.ok (JRoster us)
    /\ fst (json.Unmarshal_slice zeroUnit (Roster Scenario.playerB) us)
       = [Scenario.recalculated Scenario.vader]
    /\ Roster p = [Scenario.recalculated Scenario.vader; Scenario.yoda]
    /\ Roster p <> fst (json.Unmarshal_slice zeroUnit (Roster Scenario.playerB) us).
Proof.
  eexists _, _, _. split; [vm_compute; reflexivity|].
  split; [reflexivity|]. split; [reflexivity|]. split; [reflexivity|].
  discriminate.
Qed.

(** * Further properties of the client *)

(** ** The key normalizer *)

Lemma digits_of_range s : Forall (fun d => 0 <= d <= 9) (digits_of s).
Proof.
  induction s as [|ch s IH]; simpl; [constructor|].
  destruct (is_digit ch) eqn:Hd; [|done]. constructor; [|done].
  unfold is_digit in Hd. apply andb_true_iff in Hd as [H1 H2].
  apply Nat.leb_le in H1. apply Nat.leb_le in H2. lia.
Qed.

Lemma concatenated_nonneg ds : Forall (fun d => 0 <= d <= 9) ds -> 0 <= concatenated ds.
Proof.
  induction 1 as [|d ds Hd _ IH]; simpl; [lia|].
  assert (0 <= 10 ^ Z.of_nat (length ds)) by (apply Z.pow_nonneg; lia). nia.
Qed.

Lemma parseAllyCodes_loop_range l : forall acc ns,
  parseAllyCodes_loop acc l = (ns, None) ->
  exists vs, ns = acc ++ vs /\ length vs = length l
             /\ Forall (fun n => 0 <= n <= strconv.MaxInt) vs.
Proof.
  induction l as [|a l IH]; intros acc ns; simpl.
  - intros [= <-]. exists []. by rewrite app_nil_r.
  - rewrite Atoi_cleanup. destruct (has_digit a); [|done].
    destruct (strconv.MaxInt <? concatenated (digits_of a)) eqn:Hmax; [done|].
    intros (vs & -> & Hlen & Hall)%IH.
    exists (concatenated (digits_of a) :: vs). rewrite <- app_assoc. simpl.
    split; [done|]. split; [by rewrite Hlen|]. constructor; [|done].
    split; [apply concatenated_nonneg, digits_of_range|by apply Z.ltb_ge].
Qed.

(** X1.  A batch that normalizes yields one integer per identifier, each
    of them non-negative and within [int]. *)
Theorem parseAllyCodes_range (l : list string) (ns : list Z) :
  parseAllyCodes l = (ns, None) ->
  length ns = length l /\ forall n, n ∈ ns -> 0 <= n <= strconv.MaxInt.
Proof.
  intros (vs & -> & Hlen & Hall)%parseAllyCodes_loop_range. simpl.
  split; [done|]. intros n Hn. by apply (proj1 (Forall_forall _ _) Hall).
Qed.

Lemma parseAllyCodes_range_witness :
  length [123456789; 7] = length ["123-456-789"; "007"]
  /\ forall n, n ∈ [123456789; 7] -> 0 <= n <= strconv.MaxInt.
Proof. apply (parseAllyCodes_range ["123-456-789"; "007"]). reflexivity. Defined.

Lemma allyCodeCleanup_app a b :
  allyCodeCleanup (a ++ b)%string = (allyCodeCleanup a ++ allyCodeCleanup b)%string.
Proof.
  induction a as [|ch a IH]; simpl; [done|].
  destruct (is_digit ch); simpl; by rewrite IH.
Qed.

(** X2.  Characters that are no digits, put anywhere in an identifier, do
    not change what the normalizer returns for it. *)
Theorem parseAllyCodes_separators (a sep b : string) :
  allyCodeCleanup sep = "" ->
  parseAllyCodes [(a ++ sep ++ b)%string] = parseAllyCodes [(a ++ b)%string].
Proof.
  intros Hsep. unfold parseAllyCodes. simpl.
  by rewrite !allyCodeCleanup_app, Hsep.
Qed.

Lemma parseAllyCodes_separators_witness :
  parseAllyCodes ["265" ++ " - " ++ "924989"]%string = parseAllyCodes ["265" ++ "924989"]%string.
Proof. apply parseAllyCodes_separators. reflexivity. Defined.

(** The decimal form that [strconv.Itoa] writes is made of digits that
    write the number back. *)
Lemma pretty_N_char_digit d :
  (d < 10)%N ->
  is_digit (pretty_N_char d) = true
  /\ Z.of_nat (nat_of_ascii (pretty_N_char d)) - 48 = Z.of_N d.
Proof.
  intros Hd.
  assert (d = 0 \/ d = 1 \/ d = 2 \/ d = 3 \/ d = 4 \/ d = 5 \/ d = 6 \/ d = 7
          \/ d = 8 \/ d = 9)%N as H by lia.
  repeat (destruct H as [->|H]; [split; reflexivity|]). subst. split; reflexivity.
Qed.

Lemma pretty_N_go_digits x : forall s,
  digits_of (pretty_N_go x s) <> [] \/ (x = 0%N /\ digits_of s = []).
Proof.
  induction (N.lt_wf_0 x) as [x _ IH]; intros s.
  assert (x = 0 \/ 0 < x)%N as [->|Hx] by lia.
  - rewrite pretty_N_go_0. destruct (digits_of s); auto.
  - left. rewrite pretty_N_go_step by done.
    destruct (IH (x `div` 10)%N (N.div_lt x 10 Hx eq_refl)
                 (String (pretty_N_char (x `mod` 10)) s)) as [H|[_ H]]; [done|].
    simpl in H.
    destruct (pretty_N_char_digit (x `mod` 10)%N) as [Hd _];
      [by apply N.mod_lt|]. by rewrite Hd in H.
Qed.

Lemma pretty_N_go_value x : forall s,
  allyCodeCleanup (pretty_N_go x s) = pretty_N_go x (allyCodeCleanup s)
  /\ exists k,
       length (digits_of (pretty_N_go x s)) = (k + length (digits_of s))%nat
       /\ concatenated (digits_of (pretty_N_go x s))
          = Z.of_N x * 10 ^ Z.of_nat (length (digits_of s)) + concatenated (digits_of s).
Proof.
  induction (N.lt_wf_0 x) as [x _ IH]; intros s.
  assert (x = 0 \/ 0 < x)%N as [->|Hx] by lia.
  - rewrite !pretty_N_go_0. split; [done|]. exists 0%nat. split; [done|]. lia.
  - rewrite !(pretty_N_go_step x) by done.
    destruct (pretty_N_char_digit (x `mod` 10)%N) as [Hd Hv]; [by apply N.mod_lt|].
    destruct (IH (x `div` 10)%N (N.div_lt x 10 Hx eq_refl)
                 (String (pretty_N_char (x `mod` 10)) s)) as (Hc & k & Hlen & Hval).
    simpl in Hc, Hlen, Hval. rewrite Hd in Hc, Hlen, Hval. simpl in Hlen, Hval.
    split; [done|]. exists (S k). split; [lia|].
    rewrite Hval, Hv, Nat2Z.inj_succ, Z.pow_succ_r by lia.
    pose proof (N.div_mod x 10 ltac:(done)) as Hdm.
    apply (f_equal Z.of_N) in Hdm. rewrite N2Z.inj_add, N2Z.inj_mul in Hdm.
    change (Z.of_N 10) with 10 in Hdm. lia.
Qed.

Lemma Atoi_Itoa n :
  0 <= n <= strconv.MaxInt ->
  strconv.Atoi (allyCodeCleanup (strconv.Itoa n)) = (n, None).
Proof.
  intros [Hn Hmax]. rewrite Atoi_cleanup.
  destruct n as [|x|x]; [done| |lia].
  unfold strconv.Itoa, pretty, pretty_Z, pretty, pretty_positive, pretty, pretty_N.
  rewrite decide_False by done.
  destruct (pretty_N_go_value (N.pos x) "") as (_ & k & _ & Hval).
  simpl in Hval.
  replace (Z.pos x * 10 ^ Z.of_nat 0 + 0) with (Z.pos x) in Hval
    by (change (10 ^ Z.of_nat 0) with 1; lia).
  unfold has_digit.
  destruct (pretty_N_go_digits (N.pos x) "") as [Hne|[? _]]; [|done].
  destruct (digits_of (pretty_N_go (N.pos x) "")) eqn:Hds; [done|].
  rewrite Hval.
  by replace (strconv.MaxInt <? Z.pos x) with false by (symmetry; apply Z.ltb_ge; lia).
Qed.

(** X3.  The normalizer reads back the decimal forms under which
    [Players] keys the cache: a batch made of the [Itoa] forms of
    non-negative integers within [int] normalizes to those integers. *)
Theorem parseAllyCodes_Itoa (ns : list Z) :
  (forall n, n ∈ ns -> 0 <= n <= strconv.MaxInt) ->
  parseAllyCodes (strconv.Itoa <$> ns) = (ns, None).
Proof.
  intros Hall. unfold parseAllyCodes. rewrite parseAllyCodes_loop_app.
  - simpl. f_equal. rewrite <- list_fmap_compose.
    rewrite <- (list_fmap_id ns) at 2. apply list_fmap_ext. intros i n Hi. simpl.
    by rewrite Atoi_Itoa by (apply Hall; by eapply list_elem_of_lookup_2).
  - intros a (n & -> & Hn)%list_elem_of_fmap. by rewrite Atoi_Itoa by auto.
Qed.

Lemma parseAllyCodes_Itoa_witness :
  parseAllyCodes (strconv.Itoa <$> [265924989; 0; 9223372036854775807])
  = ([265924989; 0; 9223372036854775807], None).
Proof.
  apply parseAllyCodes_Itoa. intros n Hn. apply list_elem_of_In in Hn. simpl in Hn.
  destruct Hn as [<-|[<-|[<-|[]]]]; vm_compute; split; discriminate.
Defined.

(** ** Calls and the sign-in *)

(** X4.  A call that returns leaves the client as it was; it returns a
    response or an error and never both or neither, and a response only
    under a status code from 200 to 299. *)
Theorem call_response env method urlPath contentType body args st resp err st' :
  call env method urlPath contentType body args st = Done (resp, err) st' ->
  client st' = client st
  /\ (resp = None <-> err <> None)
  /\ forall r, resp = Some r -> 200 <= StatusCode r <= 299.
Proof.
  intros (m & -> & Hres)%call_Done. split; [done|].
  revert Hres. unfold checkStatus.
  destruct (Do env _ _) as [answer|e]; [|intros [= -> ->]; by repeat split].
  destruct ((StatusCode answer <? 200) || (299 <? StatusCode answer)) eqn:Hcode;
    intros [= -> ->]; (split; [by split|]); [done|].
  intros r [= <-]. apply orb_false_iff in Hcode as [H1%Z.ltb_ge H2%Z.ltb_ge]. lia.
Qed.

Lemma call_response_witness :
  exists resp st',
    call (Scenario.env Scenario.allUnits) "POST" "/swgoh/data" "application/json" QueryTitles
         [] (mkState Scenario.fresh []) = Done (Some resp, None) st'
    /\ client st' = Scenario.fresh
    /\ 200 <= StatusCode resp <= 299.
Proof.
  eexists _, _. split; [reflexivity|].
  edestruct (call_response (Scenario.env Scenario.allUnits) "POST" "/swgoh/data"
               "application/json" QueryTitles [] (mkState Scenario.fresh []))
    as (Hc & _ & Hr); [reflexivity|].
  split; [exact Hc|]. by apply Hr.
Defined.

(** X5.  A call that returns has issued one request, whatever the answer:
    to the URL that [fmt.Sprintf] makes of the endpoint followed by the
    path, taken as a format, and of the operands given; with the body
    given, the content type under the canonical key [Content-Type], and no
    header besides it and [Authorization]. *)
Theorem call_request env method urlPath contentType body args st res st' :
  call env method urlPath contentType body args st = Done res st' ->
  exists req,
    sent st' = sent st ++ [Call req]
    /\ URL req = Sprintf env (endpoint (client st) ++ urlPath)%string args
    /\ Payload_of req = body
    /\ Header req !! "Content-Type" = Some contentType
    /\ dom (Header req) ⊆ {["Content-Type"; "Authorization"]}.
Proof.
  intros (m & -> & _)%call_Done. eexists. split; [reflexivity|].
  unfold setHeaders.
  replace (http.CanonicalHeaderKey "Content-type") with "Content-Type" by reflexivity.
  destruct (String.eqb (token (client st)) ""); simpl.
  - rewrite lookup_insert_eq, dom_insert_L, dom_empty_L. repeat split. set_solver.
  - replace (http.CanonicalHeaderKey "Authorization") with "Authorization" by reflexivity.
    replace (http.CanonicalHeaderKey "Content-type") with "Content-Type" by reflexivity.
    rewrite lookup_insert_ne by done.
    rewrite lookup_insert_eq, !dom_insert_L, dom_empty_L. repeat split. set_solver.
Qed.

Lemma call_request_witness :
  exists req,
    state_sent (call Scenario.catalogDown "POST" "/swgoh/data" "application/json" QueryTitles
                     [] (mkState Scenario.fresh [])) = [Call req]
    /\ URL req = "https://api.swgoh.help/swgoh/data"
    /\ Header req !! "Content-Type" = Some "application/json".
Proof.
  edestruct (call_request Scenario.catalogDown "POST" "/swgoh/data" "application/json"
               QueryTitles [] (mkState Scenario.fresh []))
    as (req & Hsent & Hurl & _ & Hct & _); [reflexivity|].
  exists req. split; [exact Hsent|]. split; [exact Hurl|exact Hct].
Defined.

(** X6.  A sign-in that fails returns the empty token and leaves the
    client as it was, the token it held included; a sign-in that succeeds
    changes the token of the client to the one it returns, and nothing
    else. *)
Theorem SignIn_client env username password st accessToken err st' :
  SignIn env username password st = Done (accessToken, err) st' ->
  match err with
  | Some _ => accessToken = "" /\ client st' = client st
  | None => client st' = setToken (client st) accessToken
  end.
Proof.
  unfold SignIn.
  destruct (call _ _ _ _ _ _ _) as [|[resp cerr] st1] eqn:Hcall; [done|].
  apply call_client in Hcall.
  destruct cerr as [cerr|].
  { destruct resp; intros [= <- <- <-]; done. }
  destruct resp as [resp|]; [|done].
  destruct (decodeAuth _); intros [= <- <- <-]; simpl; by rewrite ?Hcall.
Qed.

Lemma SignIn_client_witness :
  exists st',
    SignIn Scenario.catalogDown "user" "password" (mkState Scenario.fresh [])
    = Done ("secret", None) st'
    /\ client st' = setToken Scenario.fresh "secret".
Proof.
  eexists. split; [reflexivity|].
  exact (SignIn_client Scenario.catalogDown "user" "password" (mkState Scenario.fresh [])
           "secret" None _ eq_refl).
Defined.

(** X7.  A sign-in that returns has issued one request: a POST to the URL
    that [fmt.Sprintf] makes, without operand, of the endpoint followed by
    [/auth/signin] taken as a format; with the form of the credentials as
    body and the form content type.  It carries the token the client held
    before, when that one is not empty. *)
Theorem SignIn_request env username password st res st' :
  SignIn env username password st = Done res st' ->
  exists req,
    sent st' = sent st ++ [Call req]
    /\ Method req = "POST"
    /\ URL req = Sprintf env (endpoint (client st) ++ "/auth/signin")%string []
    /\ Payload_of req = Form (signinBody username password)
    /\ Header req !! "Content-Type" = Some "application/x-www-form-urlencoded"
    /\ Header req !! "Authorization"
       = if String.eqb (token (client st)) "" then None
         else Some ("Bearer " ++ token (client st))%string.
Proof.
  unfold SignIn, call. unfold http.NewRequest. simpl.
  destruct (url_Parse env _); [done|].
  set (req := setHeaders _ _ _).
  assert (Hreq : Method req = "POST"
                 /\ URL req = Sprintf env (endpoint (client st) ++ "/auth/signin")%string []
                 /\ Payload_of req = Form (signinBody username password)
                 /\ Header req !! "Content-Type" = Some "application/x-www-form-urlencoded"
                 /\ Header req !! "Authorization"
                    = if String.eqb (token (client st)) "" then None
                      else Some ("Bearer " ++ token (client st))%string).
  { subst req. rewrite setHeaders_Authorization. unfold setHeaders.
    replace (http.CanonicalHeaderKey "Content-type") with "Content-Type" by reflexivity.
    replace (http.CanonicalHeaderKey "Authorization") with "Authorization" by reflexivity.
    destruct (String.eqb (token (client st)) ""); simpl;
      rewrite ?(lookup_insert_ne _ "Authorization") by done;
      by rewrite lookup_insert_eq. }
  destruct (checkStatus _ _) as [[resp|] [cerr|]]; try done;
    try (intros [= <- <-]; by exists req).
  destruct (decodeAuth _); intros [= <- <-]; by exists req.
Qed.

Lemma SignIn_request_witness :
  exists req,
    state_sent (SignIn Scenario.catalogDown "user" "password"
                       (mkState (setToken Scenario.fresh "old") [])) = [Call req]
    /\ URL req = "https://api.swgoh.help/auth/signin"
    /\ Header req !! "Authorization" = Some "Bearer old".
Proof.
  edestruct (SignIn_request Scenario.catalogDown "user" "password"
               (mkState (setToken Scenario.fresh "old") []))
    as (req & Hsent & _ & Hurl & _ & _ & Hauth); [reflexivity|].
  exists req. split; [exact Hsent|]. split; [exact Hurl|exact Hauth].
Defined.

Lemma string_app_assoc (a b c : string) : ((a ++ b) ++ c = a ++ (b ++ c))%string.
Proof.
  induction a as [|ch a IH]; [done|].
  change (String ch ((a ++ b) ++ c) = String ch (a ++ (b ++ c)))%string. by rewrite IH.
Qed.

(** X8.  The credentials are put in the form as they are: two different
    pairs of user name and password can make the same body. *)
Theorem signinBody_not_escaped (username password other : string) :
  signinBody (username ++ "&password=" ++ password) other
  = signinBody username (password ++ "&password=" ++ other).
Proof. unfold signinBody. by rewrite !string_app_assoc. Qed.

(** ** The runs of the batch fetch *)

Lemma probe_spec now store ns : forall hits missing,
  probe now store hits missing ns
  = (hits ++ hitsOf now store ns, missing ++ missesOf now store ns).
Proof.
  unfold hitsOf, missesOf.
  induction ns as [|n ns IH]; intros hits missing; simpl.
  - by rewrite !app_nil_r.
  - rewrite filter_cons.
    destruct (cache.Get now store (strconv.Itoa n)) as [p|] eqn:Hget; rewrite IH.
    + rewrite decide_False by (unfold cached; by rewrite Hget).
      by rewrite <- app_assoc.
    + rewrite decide_True by (unfold cached; by rewrite Hget).
      by rewrite <- app_assoc.
Qed.

Lemma call_POST env urlPath contentType body args st :
  call env "POST" urlPath contentType body args st
  = let url := Sprintf env (endpoint (client st) ++ urlPath)%string args in
    let req := setHeaders (client st) contentType (mkRequest "POST" url ∅ body) in
    match url_Parse env url with
    | Some _ => Panic
    | None => Done (checkStatus url (Do env (sent st) req))
                   (mkState (client st) (sent st ++ [Call req]))
    end.
Proof.
  unfold call, http.NewRequest. simpl. by destruct (url_Parse env _).
Qed.

Lemma hc_Post_stat env h roster :
  hc_Post env h statURL "application/json" (RosterPayload roster)
  = match url_Parse env statURL with
    | Some err => (inr err, h)
    | None => (Do env h (statRequest roster), h ++ [Post (statRequest roster)])
    end.
Proof.
  unfold hc_Post, http.NewRequest. simpl. by destruct (url_Parse env statURL).
Qed.

(** Every return of [Players] is one of the runs. *)
Lemma Players_run env allyCodes st res st' :
  Players env allyCodes st = Done res st' -> PlayersRun env allyCodes st res st'.
Proof.
  unfold Players.
  destruct (parseAllyCodes allyCodes) as [ns [perr|]] eqn:Hparse.
  { intros [= <- <-]. by eapply RunParseError. }
  rewrite probe_spec. simpl.
  destruct (missesOf _ _ ns) as [|ally missing] eqn:Hmiss.
  { intros [= <- <-]. by apply RunAllHits. }
  assert (Hne : ally :: missing <> []) by done.
  revert Hne. rewrite <- Hmiss. clear Hmiss. intros Hne.
  rewrite call_POST. cbn zeta.
  fold (profileRequest env (client st) (missesOf (Now env (sent st)) (players (client st)) ns)).
  destruct (url_Parse env _); [done|].
  unfold checkStatus.
  destruct (Do env (sent st) _) as [resp|e] eqn:Hdo.
  2:{ intros [= <- <-]. eapply RunProfileError; [done|done|].
      unfold profileFails. by rewrite Hdo. }
  destruct ((StatusCode resp <? 200) || (299 <? StatusCode resp)) eqn:Hcode.
  { intros [= <- <-]. eapply RunProfileError; [done|done|].
    unfold profileFails. by rewrite Hdo, Hcode. }
  apply orb_false_iff in Hcode as [H1%Z.ltb_ge H2%Z.ltb_ge].
  unfold decodePlayers.
  destruct (Body_of resp) as [msg|[a|arr|t|us|]] eqn:Hbody;
    try (intros [= <- <-]; eapply RunProfileError; [done|done|];
         unfold profileFails, decodePlayers; rewrite Hdo, Hbody;
         by rewrite orb_true_r).
  intros Hrest.
  eapply RunFetched; [done|done|exact Hdo|lia|exact Hbody|].
  destruct (DataPlayerTitles env _) as [|[titles [terr|]] st2] eqn:Htitles; [done| |].
  { injection Hrest as <- <-. by eapply RunCatalogError. }
  destruct (statLoop _ _ _ _) as [[players3 [serr|]] h3] eqn:Hloop.
  - injection Hrest as <- <-. by eapply RunOverlayError.
  - injection Hrest as <- <-. by eapply RunEnriched.
Qed.

Lemma setRoster_setRoster p r r' : setRoster (setRoster p r) r' = setRoster p r'.
Proof. done. Qed.

(** The stat loop keeps the number of records, every field of a record
    but its roster, and the length of every roster. *)
Lemma statLoop_players env indices : forall ps h ps' err h',
  statLoop env indices ps h = (ps', err, h') ->
  length ps' = length ps
  /\ forall i p, ps !! i = Some p ->
       exists p', ps' !! i = Some p' /\ p' = setRoster p (Roster p')
                  /\ length (Roster p') = length (Roster p).
Proof.
  induction indices as [|i indices IH]; intros ps h ps' err h'; simpl.
  { intros [= <- <- <-]. split; [done|]. intros j p Hj. exists p. by destruct p. }
  assert (Hid : forall j p, ps !! j = Some p ->
            exists p', ps !! j = Some p' /\ p' = setRoster p (Roster p')
                       /\ length (Roster p') = length (Roster p)).
  { intros j p Hj. exists p. by destruct p. }
  destruct (ps !! i) as [player|] eqn:Hi; [|by intros [= <- <- <-]].
  destruct (hc_Post _ _ _ _ _) as [[resp|e] h1]; [|by intros [= <- <- <-]].
  destruct (decodeRoster _) as [us|e]; [|by intros [= <- <- <-]].
  simpl. intros [Hlen Hrec]%IH. rewrite length_insert in Hlen. split; [done|].
  intros j p Hj. destruct (decide (j = i)) as [->|Hne].
  - rewrite Hi in Hj. injection Hj as <-.
    destruct (Hrec i (setRoster player (json.overwritten (Roster player) us)))
      as (p' & Hp' & Heq & Hl).
    { apply list_lookup_insert_eq. by eapply lookup_lt_Some. }
    exists p'. split; [done|]. simpl in Hl. rewrite overwritten_length in Hl.
    split; [|done]. rewrite Heq at 1. apply setRoster_setRoster.
  - apply Hrec. by rewrite list_lookup_insert_ne.
Qed.

(** Some event, issued after the events [h], is a stat request that
    failed: only the stat requests count. *)
Lemma anyEvent_overlay_calls env h new :
  postRequests new = [] -> anyEvent (overlayFailed env) h new = false.
Proof.
  revert h. induction new as [|[r|r] new IH]; intros h; simpl; [done| |done].
  intros Hp. by apply IH.
Qed.

Lemma anyEvent_cons p h e new :
  anyEvent p h (e :: new) = p h e || anyEvent p (h ++ [e]) new.
Proof. done. Qed.

(** The events of the stat loop: stat requests built for rosters.  When
    the loop ends without error none of them failed; when it ends with an
    error, either none failed (the URL of the stat service does not parse)
    or the last one did and no other. *)
Lemma statLoop_events env indices : forall ps h ps' err h',
  statLoop env indices ps h = (ps', err, h') ->
  exists rosters,
    let new := Post <$> (statRequest <$> rosters) in
    h' = h ++ new
    /\ match err with
       | None => anyEvent (overlayFailed env) h new = false
       | Some _ =>
           anyEvent (overlayFailed env) h new = false
           \/ exists pre r,
                new = pre ++ [Post r]
                /\ anyEvent (overlayFailed env) h pre = false
                /\ overlayFails (Do env (h ++ pre) r) = true
       end.
Proof.
  induction indices as [|i indices IH]; intros ps h ps' err h'; simpl.
  { intros [= <- <- <-]. exists []. by rewrite app_nil_r. }
  destruct (ps !! i) as [player|].
  2:{ intros [= <- <- <-]. exists []. by rewrite app_nil_r. }
  rewrite hc_Post_stat. destruct (url_Parse env statURL).
  { intros [= <- <- <-]. exists []. rewrite app_nil_r. split; [done|]. by left. }
  destruct (Do env h _) as [resp|e] eqn:Hdo.
  2:{ intros [= <- <- <-]. exists [Roster player]. split; [done|]. right.
      exists [], (statRequest (Roster player)). rewrite app_nil_r.
      unfold overlayFails. by rewrite Hdo. }
  destruct (decodeRoster _) as [us|e] eqn:Hdec.
  2:{ intros [= <- <- <-]. exists [Roster player]. split; [done|]. right.
      exists [], (statRequest (Roster player)). rewrite app_nil_r.
      unfold overlayFails. by rewrite Hdo, Hdec. }
  simpl. intros (rosters & -> & Herr)%IH. exists (Roster player :: rosters).
  assert (Hthis : overlayFailed env h (Post (statRequest (Roster player))) = false).
  { simpl. unfold overlayFails. by rewrite Hdo, Hdec. }
  rewrite !fmap_cons. split; [by rewrite <- app_assoc|].
  rewrite anyEvent_cons, Hthis. cbn [orb].
  destruct err as [err|]; [|done].
  destruct Herr as [Hok|(pre & r & Hnew & Hpre & Hr)]; [by left|right].
  exists (Post (statRequest (Roster player)) :: pre), r.
  rewrite Hnew, anyEvent_cons, Hthis. cbn [orb].
  split; [done|]. split; [done|]. by rewrite <- app_assoc in Hr.
Qed.

(** Over indices that are distinct and within the slice, a stat loop
    that ends without error has issued one request for every index, in
    order, each with the roster the slice held at that index when the loop
    began. *)
Lemma statLoop_requests env indices : forall ps h ps' h',
  NoDup indices ->
  (forall i, i ∈ indices -> (i < length ps)%nat) ->
  statLoop env indices ps h = (ps', None, h') ->
  h' = h ++ (Post <$> ((fun i => statRequest (from_option Roster [] (ps !! i))) <$> indices)).
Proof.
  induction indices as [|i indices IH]; intros ps h ps' h' Hnd Hin; simpl.
  { intros [= <- <-]. by rewrite app_nil_r. }
  apply NoDup_cons in Hnd as [Hi Hnd].
  destruct (ps !! i) as [player|] eqn:Hpi.
  2:{ apply lookup_ge_None in Hpi. pose proof (Hin i ltac:(left)). lia. }
  rewrite hc_Post_stat. destruct (url_Parse env statURL); [done|].
  destruct (Do env h _) as [resp|e]; [|done].
  destruct (decodeRoster _) as [us|e]; [|done].
  simpl. intros Hloop. apply IH in Hloop; [|done|].
  2:{ intros j Hj. rewrite length_insert. apply Hin. by right. }
  rewrite Hloop, <- app_assoc. simpl. do 3 f_equal.
  apply list_fmap_ext. intros k j Hk. simpl.
  rewrite list_lookup_insert_ne; [done|].
  intros ->. apply Hi. by eapply list_elem_of_lookup_2.
Qed.

Lemma fmap_lookup_seq {A B : Type} (g : option A -> B) (l : list A) :
  (fun i => g (l !! i)) <$> seq 0 (length l) = (fun x => g (Some x)) <$> l.
Proof.
  apply list_eq. intros i. rewrite !list_lookup_fmap.
  destruct (l !! i) as [x|] eqn:Hi; simpl.
  - rewrite lookup_seq_lt by (by eapply lookup_lt_Some). simpl. by rewrite Hi.
  - rewrite lookup_seq_ge by (by apply lookup_ge_None). done.
Qed.

(** The catalog fetch keeps the endpoint, the token, the debug flag and the
    player cache of the client, and issues no stat request. *)
Lemma DataPlayerTitles_client env st res st' :
  DataPlayerTitles env st = Done res st' ->
  endpoint (client st') = endpoint (client st)
  /\ token (client st') = token (client st)
  /\ debug (client st') = debug (client st)
  /\ players (client st') = players (client st)
  /\ exists new, sent st' = sent st ++ new /\ postRequests new = []
                 /\ profileRequests new = [].
Proof.
  unfold DataPlayerTitles.
  destruct (cache.Get _ _ _).
  { intros [= <- <-]. repeat split. exists []. by rewrite app_nil_r. }
  rewrite call_POST. cbn zeta. destruct (url_Parse env _); [done|].
  set (req := setHeaders _ _ _).
  assert (Hpay : Payload_of req = QueryTitles) by apply setHeaders_Payload.
  assert (Hnew : postRequests [Call req] = [] /\ profileRequests [Call req] = []).
  { unfold profileRequests. simpl. by rewrite Hpay. }
  destruct (checkStatus _ _) as [[resp|] [cerr|]]; try done;
    try (intros [= <- <-]; repeat split; by exists [Call req]).
  destruct (decodeTitles _); intros [= <- <-]; repeat split; by exists [Call req].
Qed.

Lemma statLoop_sent env indices ps h ps' err h' :
  statLoop env indices ps h = (ps', err, h') ->
  exists new, h' = h ++ new /\ profileRequests new = []
              /\ callRequests new = [].
Proof.
  intros (rosters & -> & _)%statLoop_events. eexists. split; [done|].
  induction rosters as [|r rosters IH]; [done|]. by rewrite !fmap_cons.
Qed.

(** The enrichment keeps the endpoint, the token and the debug flag; it
    adds events that are no profile-batch request; when it ends with an
    error the player cache is the one it began with. *)
Lemma EnrichRun_client env st1 players1 res st' :
  EnrichRun env st1 players1 res st' ->
  endpoint (client st') = endpoint (client st1)
  /\ token (client st') = token (client st1)
  /\ debug (client st') = debug (client st1)
  /\ (snd res <> None -> fst res = [] /\ players (client st') = players (client st1))
  /\ exists new, sent st' = sent st1 ++ new /\ profileRequests new = [].
Proof.
  destruct 1 as [titles err st2 Ht|titles st2 players3 err h3 Ht Hloop
                |titles st2 players3 h3 Ht Hloop];
    apply DataPlayerTitles_client in Ht
      as (He & Htok & Hd & Hp & new2 & Hsent & _ & Hprof); simpl.
  - repeat split; try done. by exists new2.
  - apply statLoop_sent in Hloop as (new3 & -> & Hprof3 & _).
    repeat split; try done. exists (new2 ++ new3).
    by rewrite Hsent, <- app_assoc, profileRequests_app, Hprof, Hprof3.
  - apply statLoop_sent in Hloop as (new3 & -> & Hprof3 & _).
    repeat split; try done. exists (new2 ++ new3).
    by rewrite Hsent, <- app_assoc, profileRequests_app, Hprof, Hprof3.
Qed.

(** X9.  [Players] never changes the endpoint, the token or the debug
    flag of the client.  Whenever it returns an error, whatever the step
    that failed, it returns no record (the cache hits of the batch
    included) and the player cache is the one it started with. *)
Theorem Players_client env allyCodes st ps err st' :
  Players env allyCodes st = Done (ps, err) st' ->
  endpoint (client st') = endpoint (client st)
  /\ token (client st') = token (client st)
  /\ debug (client st') = debug (client st)
  /\ (err <> None -> ps = [] /\ players (client st') = players (client st)).
Proof.
  intros Hrun%Players_run.
  inversion Hrun as [ns e Hp|ns Hp Hm|ns e Hp missing req Hne Hfail
                    |ns resp arr res0 st0 Hp hits missing req Hne Hdo Hcode Hbody Henrich];
    subst; try done.
  apply EnrichRun_client in Henrich as (He & Ht & Hd & Herr & _). simpl in *.
  repeat split; try done; by apply Herr.
Qed.

Lemma Players_client_witness :
  let st := mkState (setToken Scenario.holdingA "secret") [] in
  let run := Players Scenario.catalogDown ["123-456-789"; "265-924-989"] st in
  results_of run = Some ([], Some (StatusErr "https://api.swgoh.help/swgoh/data" 503
                                             "503 Service Unavailable"))
  /\ token (client (state_after run st)) = "secret"
  /\ players (client (state_after run st)) = players Scenario.holdingA.
Proof.
  intros st run. split; [vm_compute; reflexivity|].
  destruct (Players_client Scenario.catalogDown ["123-456-789"; "265-924-989"] st
              [] (snd (results_after run ([], None))) (state_after run st))
    as (_ & Ht & _ & Herr); [vm_compute; reflexivity|].
  split; [exact Ht|]. apply Herr. vm_compute. discriminate.
Defined.

Lemma missesOf_nil now store ns :
  (forall n, n ∈ ns -> cached now store n = true) -> missesOf now store ns = [].
Proof.
  intros Hall. unfold missesOf. induction ns as [|n ns IH]; [done|].
  rewrite filter_cons, decide_False.
  - apply IH. intros m Hm. apply Hall. by right.
  - rewrite (Hall n) by (by left). done.
Qed.

Lemma hitsOf_lookup now store ns :
  (forall n, n ∈ ns -> cached now store n = true) ->
  forall i, hitsOf now store ns !! i
            = ns !! i ≫= (fun n => cache.Get now store (strconv.Itoa n)).
Proof.
  intros Hall. unfold hitsOf. induction ns as [|n ns IH]; intros i; [done|].
  pose proof (Hall n ltac:(left)) as Hn. unfold cached in Hn. simpl.
  destruct (cache.Get now store (strconv.Itoa n)) as [p|] eqn:Hget; [|done].
  destruct i as [|i]; simpl; [done|].
  apply IH. intros m Hm. apply Hall. by right.
Qed.

(** X10.  When the batch normalizes and every identifier has an entry in
    the player cache that has not expired, [Players] returns without
    issuing any request and leaves the state as it was; the result holds,
    at every index, the cached record of the identifier at that index. *)
Theorem Players_all_cached env allyCodes st ns :
  parseAllyCodes allyCodes = (ns, None) ->
  (forall n, n ∈ ns -> cached (Now env (sent st)) (players (client st)) n = true) ->
  exists hits,
    Players env allyCodes st = Done (hits, None) st
    /\ forall i, hits !! i
                 = ns !! i ≫= (fun n => cache.Get (Now env (sent st)) (players (client st))
                                                  (strconv.Itoa n)).
Proof.
  intros Hparse Hall. exists (hitsOf (Now env (sent st)) (players (client st)) ns).
  split; [|by apply hitsOf_lookup].
  unfold Players. rewrite Hparse, probe_spec. simpl.
  by rewrite missesOf_nil.
Qed.

Lemma Players_all_cached_witness :
  Players Scenario.catalogDown ["123-456-789"; "123456789"] (mkState Scenario.holdingA [])
  = Done ([Scenario.playerA; Scenario.playerA], None) (mkState Scenario.holdingA []).
Proof.
  destruct (Players_all_cached Scenario.catalogDown ["123-456-789"; "123456789"]
              (mkState Scenario.holdingA []) [123456789; 123456789])
    as (hits & Hrun & Hhits).
  - reflexivity.
  - intros n Hn. apply list_elem_of_In in Hn. simpl in Hn.
    destruct Hn as [<-|[<-|[]]]; reflexivity.
  - rewrite Hrun. do 2 f_equal.
    apply list_eq. intros i. rewrite Hhits.
    destruct i as [|[|i]]; reflexivity.
Defined.

Lemma issued_nil st : issued st st = [].
Proof. unfold issued. by rewrite drop_all. Qed.

(** What a run of [Players] that returns has issued: nothing when an
    identifier does not normalize or every identifier is a cache hit; else
    the profile-batch request for the misses, then events that are no
    profile-batch request. *)
Lemma Players_issued env allyCodes st res st' :
  Players env allyCodes st = Done res st' ->
  match parseAllyCodes allyCodes with
  | (_, Some _) => issued st st' = []
  | (ns, None) =>
      match missesOf (Now env (sent st)) (players (client st)) ns with
      | [] => issued st st' = []
      | _ :: _ =>
          exists rest,
            issued st st'
            = Call (profileRequest env (client st)
                      (missesOf (Now env (sent st)) (players (client st)) ns)) :: rest
            /\ profileRequests rest = []
      end
  end.
Proof.
  intros Hrun%Players_run.
  inversion Hrun as [ns e Hp|ns Hp Hm|ns e Hp missing req Hne Hfail
                    |ns resp arr res0 st0 Hp hits missing req Hne Hdo Hcode Hbody Henrich];
    subst; rewrite Hp.
  - apply issued_nil.
  - rewrite Hm. apply issued_nil.
  - subst missing req. destruct (missesOf _ _ ns) eqn:Hm; [done|].
    exists []. split; [|done]. by apply issued_app.
  - apply EnrichRun_client in Henrich as (_ & _ & _ & _ & new & Hsent & Hprof).
    subst missing req. destruct (missesOf _ _ ns) eqn:Hm; [done|].
    exists new. split; [|done]. apply issued_app. simpl in Hsent.
    by rewrite Hsent, <- app_assoc.
Qed.

Lemma profileRequests_Call r rest :
  profileRequests (Call r :: rest)
  = match Payload_of r with
    | QueryPlayers q => q :: profileRequests rest
    | _ => profileRequests rest
    end.
Proof. unfold profileRequests. simpl. by destruct (Payload_of r). Qed.

(** X11.  A run of [Players] that returns has issued at most one
    profile-batch request: none when an identifier does not normalize or
    when no identifier misses the cache, and else one, whose allycodes are
    the identifiers without unexpired cache entry, in the order of the
    batch and with their repetitions, in the language eng_us, without
    enums and with the projection of eleven fields. *)
Theorem Players_profile_requests env allyCodes st res st' :
  Players env allyCodes st = Done res st' ->
  profileRequests (issued st st')
  = match parseAllyCodes allyCodes with
    | (_, Some _) => []
    | (ns, None) =>
        match missesOf (Now env (sent st)) (players (client st)) ns with
        | [] => []
        | missing => [mkPlayersQuery missing "eng_us" false playersProjection]
        end
    end.
Proof.
  intros Hrun%Players_issued.
  destruct (parseAllyCodes allyCodes) as [ns [e|]]; [by rewrite Hrun|].
  destruct (missesOf _ _ ns) as [|n missing]; [by rewrite Hrun|].
  destruct Hrun as (rest & -> & Hrest).
  rewrite profileRequests_Call. unfold profileRequest.
  rewrite setHeaders_Payload. simpl. by rewrite Hrest.
Qed.

Lemma Players_profile_requests_witness :
  let st := mkState Scenario.holdingA [] in
  let run := Players Scenario.catalogDown ["265-924-989"; "123-456-789"; "265924989"] st in
  allycodes <$> profileRequests (issued st (state_after run st)) = [[265924989; 265924989]].
Proof.
  intros st run.
  rewrite (Players_profile_requests Scenario.catalogDown
             ["265-924-989"; "123-456-789"; "265924989"] st
             (results_after run ([], None)) (state_after run st));
    [|vm_compute; reflexivity].
  vm_compute. reflexivity.
Defined.

Lemma setHeaders_ContentType c contentType m url body :
  Header (setHeaders c contentType (mkRequest m url ∅ body)) !! "Content-Type"
  = Some contentType.
Proof.
  unfold setHeaders.
  replace (http.CanonicalHeaderKey "Content-type") with "Content-Type" by reflexivity.
  replace (http.CanonicalHeaderKey "Authorization") with "Authorization" by reflexivity.
  destruct (String.eqb (token c) ""); simpl;
    rewrite ?(lookup_insert_ne _ "Authorization") by done;
    by rewrite lookup_insert_eq.
Qed.

Lemma setHeaders_URL c contentType req :
  URL (setHeaders c contentType req) = URL req
  /\ Method (setHeaders c contentType req) = Method req.
Proof. unfold setHeaders. by destruct (String.eqb (token c) ""). Qed.

(** X12.  When a run of [Players] that returns has issued anything, the
    first request is the profile-batch request, issued through [call]: a
    POST to the URL that [fmt.Sprintf] makes, without operand, of the
    endpoint followed by [/swgoh/player] taken as a format; of content type
    application/json, with the bearer token of the client when it is not
    empty and no Authorization header when it is. *)
Theorem Players_first_request env allyCodes st res st' :
  Players env allyCodes st = Done res st' ->
  issued st st' <> [] ->
  exists req rest,
    issued st st' = Call req :: rest
    /\ Method req = "POST"
    /\ URL req = Sprintf env (endpoint (client st) ++ "/swgoh/player")%string []
    /\ Header req !! "Content-Type" = Some "application/json"
    /\ Header req !! "Authorization"
       = if String.eqb (token (client st)) "" then None
         else Some ("Bearer " ++ token (client st))%string.
Proof.
  intros Hrun%Players_issued Hne.
  destruct (parseAllyCodes allyCodes) as [ns [e|]]; [done|].
  destruct (missesOf _ _ ns) as [|n missing]; [done|].
  destruct Hrun as (rest & Hrun & _). eexists _, rest. split; [exact Hrun|].
  unfold profileRequest.
  rewrite setHeaders_ContentType, setHeaders_Authorization.
  by destruct (setHeaders_URL (client st) "application/json"
                 (mkRequest "POST"
                            (Sprintf env (endpoint (client st) ++ "/swgoh/player")%string []) ∅
                            (playersPayload (n :: missing)))) as [-> ->].
Qed.

Lemma Players_first_request_witness :
  let st := mkState (setToken Scenario.fresh "secret") [] in
  let run := Players (Scenario.env Scenario.allUnits) ["265-924-989"] st in
  exists req rest,
    issued st (state_after run st) = Call req :: rest
    /\ URL req = "https://api.swgoh.help/swgoh/player"
    /\ Header req !! "Authorization" = Some "Bearer secret".
Proof.
  intros st run.
  destruct (Players_first_request (Scenario.env Scenario.allUnits) ["265-924-989"] st
              (results_after run ([], None)) (state_after run st))
    as (req & rest & Hiss & _ & Hurl & _ & Hauth).
  - vm_compute; reflexivity.
  - vm_compute. discriminate.
  - exists req, rest. split; [exact Hiss|]. split; [exact Hurl|exact Hauth].
Defined.

(** X13.  When the answer to the profile-batch request is a failure (an
    error of the transport, a status out of 200-299, a body that is no list
    of players), [Players] returns an error and no record, has issued
    nothing after that request, and leaves the client as it was. *)
Theorem Players_profile_failure env allyCodes st res st' req rest :
  Players env allyCodes st = Done res st' ->
  issued st st' = Call req :: rest ->
  profileFails (Do env (sent st) req) = true ->
  rest = [] /\ fst res = [] /\ snd res <> None /\ client st' = client st.
Proof.
  intros Hrun%Players_run Hiss Hfail.
  inversion Hrun as [ns e Hp|ns Hp Hm|ns e Hp missing req' Hne Hfail'
                    |ns resp arr res0 st0 Hp hits missing req' Hne Hdo Hcode Hbody Henrich];
    subst.
  - by rewrite issued_nil in Hiss.
  - by rewrite issued_nil in Hiss.
  - rewrite (issued_app _ _ [Call req']) in Hiss by done.
    by injection Hiss as <- <-.
  - exfalso.
    apply EnrichRun_client in Henrich as (_ & _ & _ & _ & new & Hsent & _).
    simpl in Hsent. rewrite <- app_assoc in Hsent.
    rewrite (issued_app _ _ _ Hsent) in Hiss. injection Hiss as <- <-.
    subst req' missing. unfold profileFails in Hfail. rewrite Hdo in Hfail.
    unfold decodePlayers in Hfail. rewrite Hbody in Hfail.
    apply orb_true_iff in Hfail as [Hfail|]; [|done].
    apply orb_true_iff in Hfail as [?%Z.ltb_lt|?%Z.ltb_lt]; lia.
Qed.

Lemma Players_profile_failure_witness :
  let st := mkState Scenario.holdingA [] in
  let run := Players Scenario.offline ["123-456-789"; "265-924-989"] st in
  issued st (state_after run st)
  = [Call (profileRequest Scenario.offline Scenario.holdingA [265924989])]
  /\ fst (results_after run ([], None)) = []
  /\ snd (results_after run ([], None)) <> None
  /\ client (state_after run st) = Scenario.holdingA.
Proof.
  intros st run. split; [vm_compute; reflexivity|].
  refine (proj2 (Players_profile_failure Scenario.offline ["123-456-789"; "265-924-989"]
                   st (results_after run ([], None)) (state_after run st)
                   (profileRequest Scenario.offline Scenario.holdingA [265924989]) [] _ _ _)).
  - vm_compute; reflexivity.
  - vm_compute; reflexivity.
  - vm_compute; reflexivity.
Defined.

(** ** The records fetched *)

Lemma decode_array_length {A : Type} (zero : A) (arr : list (json.object A)) : forall old,
  length (json.decode_array zero old arr) = length arr.
Proof.
  induction arr as [|o arr IH]; intros [|x old]; simpl; by rewrite ?IH.
Qed.

Lemma postRequests_Post reqs : postRequests (Post <$> reqs) = reqs.
Proof. induction reqs as [|r reqs IH]; [done|]. rewrite fmap_cons. simpl. by f_equal. Qed.

Lemma postRequests_app new1 new2 :
  postRequests (new1 ++ new2) = postRequests new1 ++ postRequests new2.
Proof. apply omap_app. Qed.

(** A run that returns records after a profile-batch request whose answer
    holds the array [arr]: the catalog fetch succeeded, and the records are
    those the stat loop left of the decoded and title-enriched records. *)
Lemma Players_fetched env allyCodes st ps st' ns req rest resp arr :
  Players env allyCodes st = Done (ps, None) st' ->
  parseAllyCodes allyCodes = (ns, None) ->
  issued st st' = Call req :: rest ->
  Do env (sent st) req = inl resp ->
  Body_of resp = Readable (JPlayers arr) ->
  let decoded := json.decode_array zeroPlayer
                   (hitsOf (Now env (sent st)) (players (client st)) ns) arr in
  exists titles st2 h3,
    DataPlayerTitles env (mkState (client st) (sent st ++ [Call req])) = Done (titles, None) st2
    /\ statLoop env (seq 0 (length (enrichTitles titles decoded)))
                (enrichTitles titles decoded) (sent st2) = (ps, None, h3)
    /\ st' = mkState (setPlayers (client st2)
                        (savePlayers (Now env h3) (players (client st2)) ps)) h3.
Proof.
  intros Hrun%Players_run Hparse Hiss Hdo Hbody.
  inversion Hrun as [ns' e Hp|ns' Hp Hm|ns' e Hp missing req' Hne Hfail'
                    |ns' resp' arr' res0 st0 Hp hits missing req' Hne Hdo' Hcode Hbody'
                       Henrich]; subst.
  - by rewrite issued_nil in Hiss.
  - rewrite Hparse in Hp. injection Hp as <-.
    pose proof (EnrichRun_client _ _ _ _ _ Henrich) as (_ & _ & _ & _ & new & Hsent & _).
    simpl in Hsent. rewrite <- app_assoc in Hsent.
    rewrite (issued_app _ _ _ Hsent) in Hiss. injection Hiss as <- <-.
    subst req' missing hits. rewrite Hdo in Hdo'. injection Hdo' as <-.
    rewrite Hbody in Hbody'. injection Hbody' as <-.
    inversion Henrich as [| |titles st2 players3 h3 Ht Hloop]; subst.
    by exists titles, st2, h3.
Qed.

(** X14.  When [Players] returns records after a profile-batch request,
    they are as many as the objects of the answer, whatever the number of
    cache hits of the batch, and the catalog fetch that followed the
    request has succeeded.  The record at an index has the name, ally
    code, level, guild name and update time that decoding the object at
    that index leaves (onto the cache hit at that index, if any); its
    selected title and its unlocked titles are the display names that the
    catalog fetched holds for the decoded keys, the empty name for a key
    it does not hold; and its roster has the decoded length. *)
Theorem Players_fetched_records env allyCodes st ps st' ns req rest resp arr :
  Players env allyCodes st = Done (ps, None) st' ->
  parseAllyCodes allyCodes = (ns, None) ->
  issued st st' = Call req :: rest ->
  Do env (sent st) req = inl resp ->
  Body_of resp = Readable (JPlayers arr) ->
  let decoded := json.decode_array zeroPlayer
                   (hitsOf (Now env (sent st)) (players (client st)) ns) arr in
  length ps = length arr
  /\ exists titles st2,
       DataPlayerTitles env (mkState (client st) (sent st ++ [Call req]))
       = Done (titles, None) st2
       /\ forall i d,
            decoded !! i = Some d ->
            exists p,
              ps !! i = Some p
              /\ PlayerName p = PlayerName d
              /\ AllyCode p = AllyCode d
              /\ Level p = Level d
              /\ GuildName p = GuildName d
              /\ UpdatedAt p = UpdatedAt d
              /\ Selected (Titles p) = from_option Name "" (titles !! Selected (Titles d))
              /\ Unlocked (Titles p)
                 = (fun key => from_option Name "" (titles !! key)) <$> Unlocked (Titles d)
              /\ length (Roster p) = length (Roster d).
Proof.
  intros Hrun Hparse Hiss Hdo Hbody decoded.
  destruct (Players_fetched _ _ _ _ _ _ _ _ _ _ Hrun Hparse Hiss Hdo Hbody)
    as (titles & st2 & h3 & Ht & Hloop & _).
  fold decoded in Hloop.
  apply statLoop_players in Hloop as [Hlen Hrec]. split.
  - rewrite Hlen, enrichTitles_fmap, length_fmap. apply decode_array_length.
  - exists titles, st2. split; [exact Ht|]. intros i d Hd.
    destruct (Hrec i (setTitles d (mkPlayerTitle (display titles (Selected (Titles d)))
                                                 (display titles <$> Unlocked (Titles d)))))
      as (p & Hp & Heq & Hl).
    { rewrite enrichTitles_fmap, list_lookup_fmap, Hd. done. }
    exists p. split; [exact Hp|].
    do 5 (split; [by rewrite Heq|]).
    split; [|split; [|exact Hl]]; rewrite Heq; simpl; unfold display.
    + by destruct (titles !! Selected (Titles d)).
    + apply list_fmap_ext. intros j key _. by destruct (titles !! key).
Qed.

Lemma Players_fetched_records_witness :
  let st := mkState Scenario.holdingA [] in
  let run := Players (Scenario.env Scenario.firstUnit) ["123-456-789"; "265-924-989"] st in
  length (fst (results_after run ([], None))) = 1%nat
  /\ exists p, fst (results_after run ([], None)) !! 0%nat = Some p
               /\ AllyCode p = 265924989
               /\ Selected (Titles p) = "Conqueror"
               /\ Unlocked (Titles p) = ["Conqueror"; ""].
Proof.
  intros st run.
  destruct (Players_fetched_records (Scenario.env Scenario.firstUnit)
              ["123-456-789"; "265-924-989"] st
              (fst (results_after run ([], None))) (state_after run st)
              [123456789; 265924989]
              (profileRequest (Scenario.env Scenario.firstUnit) Scenario.holdingA [265924989])
              (drop 1 (issued st (state_after run st)))
              (mkResponse 200 "200 OK" (Readable (JPlayers [json.full Scenario.playerB])))
              [json.full Scenario.playerB])
    as (Hlen & titles & st2 & Ht & Hrec).
  - vm_compute; reflexivity.
  - reflexivity.
  - vm_compute; reflexivity.
  - vm_compute; reflexivity.
  - reflexivity.
  - split; [exact Hlen|].
    destruct (Hrec 0%nat Scenario.playerB eq_refl)
      as (p & Hp & _ & Hally & _ & _ & _ & Hsel & Hunl & _).
    exists p. split; [exact Hp|]. split; [exact Hally|].
    vm_compute in Ht. injection Ht as <- _.
    split; [exact Hsel|exact Hunl].
Defined.

(** X15.  When [Players] returns records after a profile-batch request,
    it has issued one stat request for every object of the answer, in
    order; each submits the roster as it was decoded, and nothing else was
    issued through [c.hc.Post]. *)
Theorem Players_stat_requests env allyCodes st ps st' ns req rest resp arr :
  Players env allyCodes st = Done (ps, None) st' ->
  parseAllyCodes allyCodes = (ns, None) ->
  issued st st' = Call req :: rest ->
  Do env (sent st) req = inl resp ->
  Body_of resp = Readable (JPlayers arr) ->
  postRequests (issued st st')
  = (fun d => statRequest (Roster d))
    <$> json.decode_array zeroPlayer
          (hitsOf (Now env (sent st)) (players (client st)) ns) arr.
Proof.
  intros Hrun Hparse Hiss Hdo Hbody.
  destruct (Players_fetched _ _ _ _ _ _ _ _ _ _ Hrun Hparse Hiss Hdo Hbody)
    as (titles & st2 & h3 & Ht & Hloop & ->).
  apply DataPlayerTitles_client in Ht as (_ & _ & _ & _ & new2 & Hsent2 & Hpost2 & _).
  apply statLoop_requests in Hloop;
    [|apply NoDup_seq|by intros i [_ ?]%elem_of_seq].
  simpl in Hsent2. subst h3.
  rewrite (issued_app _ _ ((Call req :: new2) ++
             (Post <$> ((fun i => statRequest (from_option Roster []
                (enrichTitles titles (json.decode_array zeroPlayer
                   (hitsOf (Now env (sent st)) (players (client st)) ns) arr) !! i)))
              <$> seq 0 (length (enrichTitles titles (json.decode_array zeroPlayer
                   (hitsOf (Now env (sent st)) (players (client st)) ns) arr)))))))
    by (simpl; rewrite Hsent2, <- !app_assoc; done).
  rewrite postRequests_app, postRequests_Post. simpl. rewrite Hpost2. simpl.
  rewrite (fmap_lookup_seq (fun o => statRequest (from_option Roster [] o))). simpl.
  rewrite enrichTitles_fmap, <- list_fmap_compose. done.
Qed.

Lemma Players_stat_requests_witness :
  let st := mkState Scenario.fresh [] in
  let run := Players (Scenario.env Scenario.allUnits) ["123-456-789"; "265-924-989"] st in
  postRequests (issued st (state_after run st))
  = [statRequest [Scenario.recalculated Scenario.vader];
     statRequest [Scenario.vader; Scenario.yoda]].
Proof.
  intros st run.
  rewrite (Players_stat_requests (Scenario.env Scenario.allUnits)
             ["123-456-789"; "265-924-989"] st
             (fst (results_after run ([], None))) (state_after run st)
             [123456789; 265924989]
             (profileRequest (Scenario.env Scenario.allUnits) Scenario.fresh
                             [123456789; 265924989])
             (drop 1 (issued st (state_after run st)))
             (mkResponse 200 "200 OK"
                (Readable (JPlayers [json.full Scenario.playerA; json.full Scenario.playerB])))
             [json.full Scenario.playerA; json.full Scenario.playerB]).
  - reflexivity.
  - vm_compute; reflexivity.
  - reflexivity.
  - vm_compute; reflexivity.
  - vm_compute; reflexivity.
  - reflexivity.
Defined.

(** The requests a run of [Players] issued through [c.hc.Post] are stat
    requests. *)
Lemma Players_posts env allyCodes st res st' :
  Players env allyCodes st = Done res st' ->
  exists rosters, postRequests (issued st st') = statRequest <$> rosters.
Proof.
  intros Hrun%Players_run.
  inversion Hrun as [ns e Hp|ns Hp Hm|ns e Hp missing req Hne Hfail
                    |ns resp arr res0 st0 Hp hits missing req Hne Hdo Hcode Hbody Henrich];
    subst; try (exists []; by rewrite issued_nil).
  { exists []. by rewrite (issued_app _ _ [Call req]). }
  destruct Henrich as [titles err st2 Ht|titles st2 players3 err h3 Ht Hloop
                      |titles st2 players3 h3 Ht Hloop];
    apply DataPlayerTitles_client in Ht
      as (_ & _ & _ & _ & new2 & Hsent2 & Hpost2 & _); simpl in Hsent2.
  - exists []. rewrite (issued_app _ _ (Call req :: new2))
      by (rewrite Hsent2, <- app_assoc; done). done.
  - apply statLoop_events in Hloop as (rosters & -> & _). exists rosters.
    rewrite (issued_app _ _ ((Call req :: new2) ++ (Post <$> (statRequest <$> rosters))))
      by (simpl; rewrite Hsent2, <- !app_assoc; done).
    rewrite postRequests_app, postRequests_Post. simpl. by rewrite Hpost2.
  - apply statLoop_events in Hloop as (rosters & -> & _). exists rosters.
    rewrite (issued_app _ _ ((Call req :: new2) ++ (Post <$> (statRequest <$> rosters))))
      by (simpl; rewrite Hsent2, <- !app_assoc; done).
    rewrite postRequests_app, postRequests_Post. simpl. by rewrite Hpost2.
Qed.

(** X16.  Every request a run of [Players] issues outside of [call] is a
    POST to the URL of the stat service whose one header is the content
    type application/json: the bearer token of the client is not sent to
    the stat service. *)
Theorem Players_stat_request_headers env allyCodes st res st' r :
  Players env allyCodes st = Done res st' ->
  r ∈ postRequests (issued st st') ->
  Method r = "POST" /\ URL r = statURL
  /\ Header r = {["Content-Type" := "application/json"]}
  /\ Header r !! "Authorization" = None.
Proof.
  intros (rosters & ->)%Players_posts (roster & -> & _)%list_elem_of_fmap.
  repeat split.
Qed.

Lemma Players_stat_request_headers_witness :
  let st := mkState (setToken Scenario.fresh "secret") [] in
  let run := Players (Scenario.env Scenario.allUnits) ["265-924-989"] st in
  postRequests (issued st (state_after run st))
  = [statRequest [Scenario.vader; Scenario.yoda]]
  /\ URL (statRequest [Scenario.vader; Scenario.yoda]) = statURL
  /\ Header (statRequest [Scenario.vader; Scenario.yoda]) !! "Authorization" = None.
Proof.
  intros st run.
  assert (Hposts : postRequests (issued st (state_after run st))
                   = [statRequest [Scenario.vader; Scenario.yoda]])
    by (vm_compute; reflexivity).
  split; [exact Hposts|].
  destruct (Players_stat_request_headers (Scenario.env Scenario.allUnits) ["265-924-989"] st
              (results_after run ([], None)) (state_after run st)
              (statRequest [Scenario.vader; Scenario.yoda]))
    as (_ & Hurl & _ & Hauth).
  - vm_compute; reflexivity.
  - rewrite Hposts. apply list_elem_of_here.
  - split; [exact Hurl|exact Hauth].
Defined.

(** X17.  When a stat request of a run of [Players] failed, it is the
    last event of the run and the only stat request that failed: the
    records after it are not submitted. *)
Theorem Players_overlay_failure_last env allyCodes st res st' :
  Players env allyCodes st = Done res st' ->
  anyEvent (overlayFailed env) (sent st) (issued st st') = true ->
  exists pre r,
    issued st st' = pre ++ [Post r]
    /\ overlayFails (Do env (sent st ++ pre) r) = true
    /\ anyEvent (overlayFailed env) (sent st) pre = false.
Proof.
  intros Hrun%Players_run Hfail.
  inversion Hrun as [ns e Hp|ns Hp Hm|ns e Hp missing req Hne Hfail'
                    |ns resp arr res0 st0 Hp hits missing req Hne Hdo Hcode Hbody Henrich];
    subst; try (by rewrite issued_nil in Hfail).
  { by rewrite (issued_app _ _ [Call req]) in Hfail. }
  destruct Henrich as [titles err st2 Ht|titles st2 players3 err h3 Ht Hloop
                      |titles st2 players3 h3 Ht Hloop];
    apply DataPlayerTitles_client in Ht
      as (_ & _ & _ & _ & new2 & Hsent2 & Hpost2 & _); simpl in Hsent2.
  - rewrite (issued_app _ _ (Call req :: new2)) in Hfail
      by (rewrite Hsent2, <- app_assoc; done).
    by rewrite anyEvent_overlay_calls in Hfail.
  - apply statLoop_events in Hloop as (rosters & -> & Hlast). cbn zeta in Hlast.
    set (new3 := Post <$> (statRequest <$> rosters)) in *.
    assert (Hiss : issued st (mkState (client st2) (sent st2 ++ new3))
                   = (Call req :: new2) ++ new3).
    { apply issued_app. simpl. by rewrite Hsent2, <- !app_assoc. }
    rewrite Hiss in Hfail |- *.
    rewrite anyEvent_app, (anyEvent_overlay_calls env (sent st) (Call req :: new2)) in Hfail
      by done.
    replace (sent st ++ Call req :: new2) with (sent st2) in Hfail
      by (rewrite Hsent2, <- app_assoc; done).
    simpl in Hfail.
    destruct Hlast as [Hok|(pre & r & Hnew & Hpre & Hr)]; [congruence|].
    exists ((Call req :: new2) ++ pre), r. rewrite Hnew. split; [by rewrite <- app_assoc|].
    split.
    + rewrite Hsent2 in Hr. rewrite <- !app_assoc in Hr. exact Hr.
    + rewrite anyEvent_app, (anyEvent_overlay_calls env (sent st) (Call req :: new2)) by done.
      simpl. rewrite Hsent2, <- app_assoc in Hpre. exact Hpre.
  - apply statLoop_events in Hloop as (rosters & -> & Hok). cbn zeta in Hok.
    set (new3 := Post <$> (statRequest <$> rosters)) in *.
    rewrite (issued_app _ _ ((Call req :: new2) ++ new3)) in Hfail
      by (simpl; rewrite Hsent2, <- !app_assoc; done).
    rewrite anyEvent_app, (anyEvent_overlay_calls env (sent st) (Call req :: new2)) in Hfail
      by done.
    replace (sent st ++ Call req :: new2) with (sent st2) in Hfail
      by (rewrite Hsent2, <- app_assoc; done).
    simpl in Hfail. congruence.
Qed.

Lemma Players_overlay_failure_last_witness :
  let st := mkState Scenario.fresh [] in
  let run := Players (Scenario.env Scenario.smallOnly) ["265-924-989"; "123-456-789"] st in
  exists pre r,
    issued st (state_after run st) = pre ++ [Post r]
    /\ overlayFails (Do (Scenario.env Scenario.smallOnly) pre r) = true.
Proof.
  intros st run.
  destruct (Players_overlay_failure_last (Scenario.env Scenario.smallOnly)
              ["265-924-989"; "123-456-789"] st
              (results_after run ([], None)) (state_after run st))
    as (pre & r & Hiss & Hr & _).
  - vm_compute; reflexivity.
  - vm_compute; reflexivity.
  - exists pre, r. split; [exact Hiss|exact Hr].
Defined.

(** ** The records saved *)

Lemma Itoa_inj a b : strconv.Itoa a = strconv.Itoa b -> a = b.
Proof. apply (inj pretty). Qed.

Lemma savePlayers_cons now store p ps :
  savePlayers now store (p :: ps)
  = savePlayers now (cache.Put now store (strconv.Itoa (AllyCode p)) p) ps.
Proof. done. Qed.

Lemma savePlayers_expiration now ps : forall store,
  cache.expiration (savePlayers now store ps) = cache.expiration store.
Proof.
  induction ps as [|p ps IH]; intros store; [done|].
  by rewrite savePlayers_cons, IH.
Qed.

(** The save loop writes under the decimal ally codes of the records and
    nowhere else; under the ally code of a record it leaves a record of
    that ally code (the last one of the slice), to expire one TTL later. *)
Lemma savePlayers_entries now ps : forall store,
  (forall k, (forall p, p ∈ ps -> strconv.Itoa (AllyCode p) <> k) ->
             cache.entries (savePlayers now store ps) !! k = cache.entries store !! k)
  /\ (forall p, p ∈ ps ->
        exists q, q ∈ ps /\ AllyCode q = AllyCode p
                  /\ cache.entries (savePlayers now store ps) !! strconv.Itoa (AllyCode p)
                     = Some (q, now + cache.expiration store)).
Proof.
  induction ps as [|p0 ps IH]; intros store.
  { split; [done|]. by intros p ?%elem_of_nil. }
  rewrite savePlayers_cons.
  destruct (IH (cache.Put now store (strconv.Itoa (AllyCode p0)) p0)) as [IH1 IH2].
  split.
  - intros k Hk. rewrite IH1 by (intros p Hp; apply Hk; by right).
    simpl. apply lookup_insert_ne. apply Hk. by left.
  - intros p Hp.
    destruct (decide (AllyCode p ∈ (AllyCode <$> ps))) as [Hin|Hnot].
    + apply list_elem_of_fmap in Hin as (q' & Hq' & Hin).
      destruct (IH2 q' Hin) as (q & Hq & Hcode & Hentry).
      exists q. split; [by right|]. split; [congruence|]. by rewrite Hq'.
    + assert (p = p0) as ->.
      { apply elem_of_cons in Hp as [->|Hp]; [done|].
        exfalso. apply Hnot. apply list_elem_of_fmap. by exists p. }
      exists p0. split; [by left|]. split; [done|].
      rewrite IH1.
      * simpl. by rewrite lookup_insert_eq.
      * intros q Hq Heq. apply Hnot. apply Itoa_inj in Heq. rewrite <- Heq.
        apply list_elem_of_fmap. by exists q.
Qed.

Lemma Get_entry {V : Type} now (store : cache.Cache V) k v expires :
  cache.entries store !! k = Some (v, expires) ->
  now <= expires ->
  cache.Get now store k = Some v.
Proof.
  intros Hk Hle. unfold cache.Get. rewrite Hk.
  by replace (expires <? now) with false by (symmetry; apply Z.ltb_ge; lia).
Qed.

(** X18.  When [Players] returns records after a profile-batch request and
    the TTL of the player cache is not negative, every record returned is
    found in the cache under its ally code at the time of the save, in the
    form returned; of several records of one ally code the cache holds
    the last. *)
Theorem Players_saves env allyCodes st ps st' p :
  Players env allyCodes st = Done (ps, None) st' ->
  issued st st' <> [] ->
  0 <= cache.expiration (players (client st)) ->
  p ∈ ps ->
  exists q,
    q ∈ ps /\ AllyCode q = AllyCode p
    /\ cache.Get (Now env (sent st')) (players (client st')) (strconv.Itoa (AllyCode p))
       = Some q.
Proof.
  intros Hrun%Players_run Hiss Httl Hp.
  inversion Hrun as [ns e Hp0|ns Hp0 Hm|ns e Hp0 missing req Hne Hfail
                    |ns resp arr res0 st0 Hp0 hits missing req Hne Hdo Hcode Hbody Henrich];
    subst.
  { by rewrite issued_nil in Hiss. }
  inversion Henrich as [| |titles st2 players3 h3 Ht Hloop]; subst.
  apply DataPlayerTitles_client in Ht as (_ & _ & _ & Hcache & _). simpl in Hcache.
  destruct (proj2 (savePlayers_entries (Now env h3) ps (players (client st2))) p Hp)
    as (q & Hq & Hcode' & Hentry).
  exists q. split; [done|]. split; [done|].
  apply (Get_entry _ _ _ _ (Now env h3 + cache.expiration (players (client st2))));
    [exact Hentry|]. simpl. rewrite Hcache. lia.
Qed.

Lemma Players_saves_witness :
  let st := mkState Scenario.holdingA [] in
  let run := Players (Scenario.env Scenario.allUnits) ["265-924-989"] st in
  exists p,
    fst (results_after run ([], None)) = [p]
    /\ cache.Get (Scenario.clock (sent (state_after run st)))
                 (players (client (state_after run st))) "265924989" = Some p.
Proof.
  intros st run.
  set (p := setTitles (setRoster Scenario.playerB
                         (Scenario.recalculated <$> [Scenario.vader; Scenario.yoda]))
                      (mkPlayerTitle "Conqueror" ["Conqueror"; ""])).
  assert (Hps : fst (results_after run ([], None)) = [p]) by (vm_compute; reflexivity).
  exists p. split; [exact Hps|].
  destruct (Players_saves (Scenario.env Scenario.allUnits) ["265-924-989"] st
              [p] (state_after run st) p) as (q & Hq & _ & Hget).
  - vm_compute; reflexivity.
  - vm_compute. discriminate.
  - vm_compute. discriminate.
  - apply list_elem_of_here.
  - apply list_elem_of_singleton in Hq as ->. exact Hget.
Defined.

(** X19.  [Players] writes the player cache only under the decimal ally
    codes of the records it returns: the entry under any other key, and
    the TTL of the cache, are the ones it started with. *)
Theorem Players_other_entries env allyCodes st ps err st' k :
  Players env allyCodes st = Done (ps, err) st' ->
  (forall p, p ∈ ps -> strconv.Itoa (AllyCode p) <> k) ->
  cache.entries (players (client st')) !! k = cache.entries (players (client st)) !! k
  /\ cache.expiration (players (client st')) = cache.expiration (players (client st)).
Proof.
  intros Hrun%Players_run Hk.
  inversion Hrun as [ns e Hp0|ns Hp0 Hm|ns e Hp0 missing req Hne Hfail
                    |ns resp arr res0 st0 Hp0 hits missing req Hne Hdo Hcode Hbody Henrich];
    subst; try done.
  inversion Henrich as [titles e st2 Ht|titles st2 players3 e h3 Ht Hloop
                       |titles st2 players3 h3 Ht Hloop]; subst;
    apply DataPlayerTitles_client in Ht as (_ & _ & _ & Hcache & _); simpl in Hcache;
    simpl; [by rewrite Hcache|by rewrite Hcache|].
  rewrite savePlayers_expiration. split; [|by rewrite Hcache].
  rewrite (proj1 (savePlayers_entries (Now env h3) ps (players (client st2)))) by done.
  by rewrite Hcache.
Qed.

Lemma Players_other_entries_witness :
  let st := mkState Scenario.holdingA [] in
  let run := Players (Scenario.env Scenario.allUnits) ["265-924-989"] st in
  AllyCode <$> fst (results_after run ([], None)) = [265924989]
  /\ cache.entries (players (client (state_after run st))) !! "123456789"
     = cache.entries (players Scenario.holdingA) !! "123456789".
Proof.
  intros st run.
  assert (Hps : AllyCode <$> fst (results_after run ([], None)) = [265924989])
    by (vm_compute; reflexivity).
  split; [exact Hps|].
  refine (proj1 (Players_other_entries (Scenario.env Scenario.allUnits) ["265-924-989"] st
                   (fst (results_after run ([], None))) (snd (results_after run ([], None)))
                   (state_after run st) "123456789" _ _)).
  - vm_compute; reflexivity.
  - intros p Hp Hk.
    assert (Hin : AllyCode p ∈ AllyCode <$> fst (results_after run ([], None)))
      by (apply list_elem_of_fmap; by exists p).
    rewrite Hps in Hin. apply list_elem_of_singleton in Hin.
    rewrite Hin in Hk. vm_compute in Hk. discriminate Hk.
Defined.

(** ** The status of the stat service *)

Lemma statLoop_statStatus code status env indices : forall ps h,
  statLoop (statStatus code status env) indices ps h = statLoop env indices ps h.
Proof.
  induction indices as [|i indices IH]; intros ps h; simpl; [done|].
  destruct (ps !! i) as [player|]; [|done].
  rewrite !hc_Post_stat. simpl.
  destruct (url_Parse env statURL); [done|].
  destruct (Do env h (statRequest (Roster player))) as [resp|e]; simpl; [|done].
  destruct (decodeRoster (Body_of resp)); [|done].
  apply IH.
Qed.

Lemma call_statStatus code status env urlPath contentType body args st :
  (forall r, body <> RosterPayload r) ->
  call (statStatus code status env) "POST" urlPath contentType body args st
  = call env "POST" urlPath contentType body args st.
Proof.
  intros Hbody. rewrite !call_POST. simpl.
  destruct (url_Parse env _); [done|].
  rewrite setHeaders_Payload. simpl. by destruct body; [| | |edestruct Hbody].
Qed.

Lemma DataPlayerTitles_statStatus code status env st :
  DataPlayerTitles (statStatus code status env) st = DataPlayerTitles env st.
Proof.
  unfold DataPlayerTitles. simpl. by rewrite call_statStatus.
Qed.

(** X20.  The status line of the answers of the stat service is not looked
    at: under any other status code, a 500 as well as a 200, every run of
    [Players] has the same outcome. *)
Theorem Players_statStatus code status env allyCodes st :
  Players (statStatus code status env) allyCodes st = Players env allyCodes st.
Proof.
  unfold Players. simpl.
  destruct (parseAllyCodes allyCodes) as [ns [e|]]; [done|].
  destruct (probe _ _ _ _ _) as [hits [|n missing]]; [done|].
  rewrite call_statStatus by done.
  destruct (call env _ _ _ _ _ _) as [|[[resp|] [e|]] st1]; try done.
  destruct (decodePlayers _ _); [|done].
  rewrite DataPlayerTitles_statStatus.
  destruct (DataPlayerTitles env st1) as [|[titles [e|]] st2]; try done.
  by rewrite statLoop_statStatus.
Qed.

Example Players_status_500 :
  results_of (Players (statStatus 500 "500 Internal Server Error"
                                  (Scenario.env Scenario.allUnits))
                      ["265-924-989"] (mkState Scenario.fresh []))
  = Some ([setTitles (setRoster Scenario.playerB
                        (Scenario.recalculated <$> [Scenario.vader; Scenario.yoda]))
                     (mkPlayerTitle "Conqueror" ["Conqueror"; ""])],
          None).
Proof. vm_compute. reflexivity. Qed.

(** ** The debug log *)

Lemma in_string_app ch a b :
  http.in_string ch (a ++ b)%string = http.in_string ch a || http.in_string ch b.
Proof.
  induction a as [|c a IH]; [done|].
  change (http.in_string ch (String c (a ++ b)%string)
          = http.in_string ch (String c a) || http.in_string ch b).
  simpl. by rewrite IH, orb_assoc.
Qed.

Lemma replaceSlashes_no_slash urlPath :
  http.in_string "/" (replaceSlashes urlPath) = false.
Proof.
  induction urlPath as [|c s IH]; [done|].
  cbn [replaceSlashes http.in_string]. rewrite IH, orb_false_r.
  destruct (Ascii.eqb c "/") eqn:Hc; [reflexivity|].
  rewrite Ascii.eqb_sym. exact Hc.
Qed.

(** X21.  The name of a log file has no slash, whatever the path of the
    URL, as long as the method and the direction have none: the log files
    of all the paths land in one directory. *)
Theorem logFileName_no_slash (urlPath method reqresp : string) :
  http.in_string "/" method = false ->
  http.in_string "/" reqresp = false ->
  http.in_string "/" (logFileName urlPath method reqresp) = false.
Proof.
  intros Hm Hr. unfold logFileName.
  rewrite !in_string_app, replaceSlashes_no_slash, Hm, Hr. reflexivity.
Qed.

Lemma logFileName_no_slash_witness :
  logFileName "/swgoh/player" "POST" "req" = "swgohhelp_swgoh_player-POST-req.log"
  /\ http.in_string "/" (logFileName "/swgoh/player" "POST" "req") = false.
Proof.
  split; [reflexivity|]. apply logFileName_no_slash; reflexivity.
Defined.

(** ** The rosters returned *)

(** The stat loop leaves the records at the indices it does not visit. *)
Lemma statLoop_untouched env indices : forall ps h ps' err h' j,
  statLoop env indices ps h = (ps', err, h') ->
  j ∉ indices -> ps' !! j = ps !! j.
Proof.
  induction indices as [|i indices IH]; intros ps h ps' err h' j; simpl.
  { by intros [= <- <- <-]. }
  intros Hloop [Hji Hj]%not_elem_of_cons.
  destruct (ps !! i) as [player|]; [|by injection Hloop as <- <- <-].
  destruct (hc_Post _ _ _ _ _) as [[resp|e] h1]; [|by injection Hloop as <- <- <-].
  destruct (decodeRoster _) as [us|e]; [|by injection Hloop as <- <- <-].
  simpl in Hloop. rewrite (IH _ _ _ _ _ _ Hloop Hj).
  by apply list_lookup_insert_ne.
Qed.

(** Over indices that are distinct and within the slice, a stat loop that
    ends without error leaves, at the index it visits in position [k], the
    roster the slice held there overwritten in place with the answer to
    the request in position [k]. *)
Lemma statLoop_rosters env indices : forall ps h ps' h' k i p,
  NoDup indices ->
  (forall j, j ∈ indices -> (j < length ps)%nat) ->
  statLoop env indices ps h = (ps', None, h') ->
  indices !! k = Some i ->
  ps !! i = Some p ->
  exists answer us p',
    Do env (h ++ (Post <$> ((fun j => statRequest (from_option Roster [] (ps !! j)))
                            <$> take k indices)))
       (statRequest (Roster p)) = inl answer
    /\ decodeRoster (Body_of answer) = inl us
    /\ ps' !! i = Some p'
    /\ Roster p' = json.overwritten (Roster p) us.
Proof.
  induction indices as [|i0 indices IH]; intros ps h ps' h' k i p Hnd Hin; [done|].
  apply NoDup_cons in Hnd as [Hi0 Hnd]. simpl.
  destruct (ps !! i0) as [player|] eqn:Hp0.
  2:{ apply lookup_ge_None in Hp0. pose proof (Hin i0 ltac:(left)). lia. }
  rewrite hc_Post_stat. destruct (url_Parse env statURL); [done|].
  destruct (Do env h _) as [answer|e] eqn:Hdo; [|done].
  destruct (decodeRoster _) as [us|e] eqn:Hdec; [|done].
  simpl. intros Hloop Hk Hp. destruct k as [|k]; simpl in Hk.
  - injection Hk as <-. rewrite Hp0 in Hp. injection Hp as <-.
    exists answer, us, (setRoster player (json.overwritten (Roster player) us)).
    simpl. rewrite app_nil_r. repeat split; try done.
    rewrite (statLoop_untouched _ _ _ _ _ _ _ _ Hloop Hi0).
    apply list_lookup_insert_eq. by eapply lookup_lt_Some.
  - assert (Hne : i <> i0).
    { intros ->. apply Hi0. by eapply list_elem_of_lookup_2. }
    destruct (IH _ _ _ _ k i p Hnd
                 ltac:(intros j Hj; rewrite length_insert; apply Hin; by right)
                 Hloop Hk ltac:(by rewrite list_lookup_insert_ne))
      as (answer' & us' & p' & Hdo' & Hdec' & Hp' & Hros).
    exists answer', us', p'. repeat split; try done.
    rewrite <- Hdo'. f_equal. simpl. rewrite Hp0. simpl.
    rewrite <- app_assoc. simpl. do 3 f_equal.
    apply list_fmap_ext. intros n j Hj. simpl.
    rewrite list_lookup_insert_ne; [done|].
    intros ->. apply Hi0. apply lookup_take_Some in Hj as [Hj _].
    by eapply list_elem_of_lookup_2.
Qed.

(** X22.  When [Players] returns records after a profile-batch request,
    the roster returned at an index is the decoded roster overwritten in
    place by the answer to the stat request of that index: where both have
    an element the answer is decoded onto the element, and the roster
    keeps its length and its elements beyond the answer. *)
Theorem Players_rosters env allyCodes st ps st' ns req rest resp arr i d :
  Players env allyCodes st = Done (ps, None) st' ->
  parseAllyCodes allyCodes = (ns, None) ->
  issued st st' = Call req :: rest ->
  Do env (sent st) req = inl resp ->
  Body_of resp = Readable (JPlayers arr) ->
  json.decode_array zeroPlayer (hitsOf (Now env (sent st)) (players (client st)) ns) arr !! i
  = Some d ->
  exists pre post answer us p,
    issued st st' = pre ++ Post (statRequest (Roster d)) :: post
    /\ length (postRequests pre) = i
    /\ Do env (sent st ++ pre) (statRequest (Roster d)) = inl answer
    /\ decodeRoster (Body_of answer) = inl us
    /\ ps !! i = Some p
    /\ Roster p = json.overwritten (Roster d) us.
Proof.
  intros Hrun Hparse Hiss Hdo Hbody Hd.
  destruct (Players_fetched _ _ _ _ _ _ _ _ _ _ Hrun Hparse Hiss Hdo Hbody)
    as (titles & st2 & h3 & Ht & Hloop & ->).
  apply DataPlayerTitles_client in Ht as (_ & _ & _ & _ & new2 & Hsent2 & Hpost2 & _).
  simpl in Hsent2.
  set (decoded := json.decode_array zeroPlayer _ arr) in *.
  set (ps2 := enrichTitles titles decoded) in *.
  set (d2 := setTitles d (mkPlayerTitle (display titles (Selected (Titles d)))
                                        (display titles <$> Unlocked (Titles d)))).
  assert (Hd2 : ps2 !! i = Some d2).
  { subst ps2. by rewrite enrichTitles_fmap, list_lookup_fmap, Hd. }
  assert (Hi : (i < length ps2)%nat) by (by eapply lookup_lt_Some).
  assert (Hin : forall j, j ∈ seq 0 (length ps2) -> (j < length ps2)%nat)
    by (by intros j [_ ?]%elem_of_seq).
  pose proof (statLoop_requests _ _ _ _ _ _ (NoDup_seq 0 (length ps2)) Hin Hloop) as Hh3.
  destruct (statLoop_rosters _ _ _ _ _ _ i i d2 (NoDup_seq 0 (length ps2)) Hin Hloop)
    as (answer & us & p & Hans & Hdec & Hp & Hros); [by apply lookup_seq_lt|done|].
  set (F := fun j => statRequest (from_option Roster [] (ps2 !! j))) in *.
  exists (Call req :: new2 ++ (Post <$> (F <$> take i (seq 0 (length ps2))))),
         (Post <$> (F <$> drop (S i) (seq 0 (length ps2)))), answer, us, p.
  split.
  - apply issued_app. simpl. rewrite Hh3, Hsent2, <- !app_assoc. simpl. do 3 f_equal.
    rewrite <- (take_drop_middle (seq 0 (length ps2)) i i) at 1 by (by apply lookup_seq_lt).
    rewrite !fmap_app, !fmap_cons. do 2 f_equal. subst F. simpl. by rewrite Hd2.
  - split.
    { change (length (postRequests
                        (new2 ++ (Post <$> (F <$> take i (seq 0 (length ps2)))))) = i).
      rewrite postRequests_app, postRequests_Post, Hpost2, app_nil_l.
      rewrite length_fmap, length_take, length_seq. lia. }
    split; [|done].
    rewrite <- Hans. f_equal. rewrite Hsent2, <- !app_assoc. done.
Qed.

Lemma Players_rosters_witness :
  let st := mkState Scenario.fresh [] in
  let run := Players (Scenario.env Scenario.firstUnit) ["265-924-989"] st in
  exists p us,
    fst (results_after run ([], None)) !! 0%nat = Some p
    /\ Scenario.firstUnit [Scenario.vader; Scenario.yoda] = Scenario.ok (JRoster us)
    /\ Roster p = json.overwritten [Scenario.vader; Scenario.yoda] us.
Proof.
  intros st run.
  destruct (Players_rosters (Scenario.env Scenario.firstUnit) ["265-924-989"] st
              (fst (results_after run ([], None))) (state_after run st)
              [265924989] (profileRequest (Scenario.env Scenario.firstUnit) Scenario.fresh [265924989])
              (drop 1 (issued st (state_after run st)))
              (mkResponse 200 "200 OK" (Readable (JPlayers [json.full Scenario.playerB])))
              [json.full Scenario.playerB] 0%nat Scenario.playerB)
    as (pre & post & answer & us & p & Hiss & Hpre & Hans & Hdec & Hp & Hros).
  - vm_compute; reflexivity.
  - reflexivity.
  - vm_compute; reflexivity.
  - vm_compute; reflexivity.
  - reflexivity.
  - reflexivity.
  - exists p, us. split; [exact Hp|]. split; [|exact Hros].
    simpl in Hans. injection Hans as <-. simpl in Hdec. by injection Hdec as <-.
Defined.

(** ** A new client *)

Lemma cached_NewCache now file ttl ally :
  cached now (cache.NewCache file ttl) ally = persisted file now ally.
Proof.
  unfold cached, cache.Get, cache.NewCache, persisted. simpl.
  destruct file as [stored|]; simpl.
  - destruct (stored !! strconv.Itoa ally) as [[v expires]|]; [|done].
    by destruct (expires <? now).
  - by rewrite lookup_empty.
Qed.

Lemma missesOf_NewCache now file ttl ns :
  missesOf now (cache.NewCache file ttl) ns
  = filter (fun ally => persisted file now ally = false) ns.
Proof.
  unfold missesOf. induction ns as [|n ns IH]; [done|].
  rewrite !filter_cons, IH.
  pose proof (cached_NewCache now file ttl n) as Hn.
  destruct (decide (cached _ _ n = false)), (decide (persisted _ _ n = false)); congruence.
Qed.

(** X23.  On a client as [New] makes it, the identifiers of a batch that
    normalizes are requested but for those of which the file of the player
    cache yielded an entry that has not expired (so all of them when that
    file is absent or corrupt), in the order of the batch; the request
    goes to the URL that [fmt.Sprintf] makes, without operand, of the value
    the variable [DefaultEndpoint] held followed by [/swgoh/player], and
    has no Authorization header: before any sign-in the batch fetch is not
    authenticated. *)
Theorem Players_on_New env defaultEndpoint gameDataFile playersFile gameTTL playerTTL h
    allyCodes ns res st' :
  let st := mkState (New defaultEndpoint gameDataFile playersFile gameTTL playerTTL) h in
  let missing := filter (fun ally => persisted playersFile (Now env h) ally = false) ns in
  parseAllyCodes allyCodes = (ns, None) ->
  missing <> [] ->
  Players env allyCodes st = Done res st' ->
  exists req rest,
    issued st st' = Call req :: rest
    /\ URL req = Sprintf env (defaultEndpoint ++ "/swgoh/player")%string []
    /\ Payload_of req = playersPayload missing
    /\ Header req !! "Authorization" = None
    /\ profileRequests rest = [].
Proof.
  intros st missing Hparse Hne Hrun%Players_issued. rewrite Hparse in Hrun. simpl in Hrun.
  rewrite missesOf_NewCache in Hrun. fold missing in Hrun.
  destruct missing as [|n rest']; [done|].
  destruct Hrun as (rest & Hiss & Hrest). eexists _, rest.
  split; [exact Hiss|]. repeat split; done.
Qed.

Lemma Players_on_New_witness :
  let st := mkState Scenario.restarted [] in
  let run := Players Scenario.offline ["123-456-789"; "265-924-989"; "n/a 12"] st in
  exists req rest,
    issued st (state_after run st) = Call req :: rest
    /\ URL req = "https://api.swgoh.help/swgoh/player"
    /\ Payload_of req = playersPayload [265924989; 12]
    /\ Header req !! "Authorization" = None.
Proof.
  intros st run.
  destruct (Players_on_New Scenario.offline DefaultEndpoint None (Some Scenario.playersFile)
              Scenario.GameDataCacheExpiration Scenario.PlayerCacheExpiration []
              ["123-456-789"; "265-924-989"; "n/a 12"]
              [123456789; 265924989; 12] (results_after run ([], None)) (state_after run st))
    as (req & rest & Hiss & Hurl & Hpay & Hauth & _).
  - reflexivity.
  - vm_compute. discriminate.
  - vm_compute; reflexivity.
  - exists req, rest. split; [exact Hiss|]. split; [exact Hurl|].
    split; [exact Hpay|exact Hauth].
Defined.
